(** * Claim classification notebook: text preprocessing

    A shallow embedding of the preprocessing cells of
    [Hands-on lab/notebooks/03 Claim Classification.ipynb]: the helpers
    [remove_special_characters] and [convert_to_indices], the parsing of
    the labels file, and the calls that turn labels and index sequences
    into fixed-width matrices.

    Conventions.
    - A Python [str] is a [string]; each [ascii] stands for the code point
      of the same number, so the model covers text over the code points
      0..255.  On that range [isspace], [lower] and [split] follow CPython.
    - A Python [int] is a [Z]; a Python [list] is a [list].
    - A Python [dict] with [str] keys is a [gmap string _].
    - Exceptions are explicit: a computation that may raise has type
      [outcome A], and [try]/[except ValueError] is [try_except_ValueError]. *)

From Stdlib Require Import ZArith List Ascii String Lia.
From stdpp Require Import gmap strings list fin_maps.

Local Open Scope string_scope.
Local Open Scope list_scope.
Local Open Scope Z_scope.

(* ===================================================================== *)
(** * Exceptions *)
(* ===================================================================== *)

(** The exception classes that the modelled cells can raise. *)
Inductive exception : Type :=
  | ValueError
  | AttributeError
  | IndexError
  | URLError
  | FileNotFoundError.

Inductive outcome (A : Type) : Type :=
  | Return (a : A)
  | Raise (e : exception).

Arguments Return {A} a.
Arguments Raise {A} e.

#[global] Instance outcome_ret : MRet outcome := fun A a => Return a.

#[global] Instance outcome_bind : MBind outcome := fun A B f m =>
  match m with
  | Return a => f a
  | Raise e => Raise e
  end.

(** [try: body except ValueError: handler].  Any other exception of the
    body passes through. *)
Definition try_except_ValueError {A : Type} (body handler : outcome A) : outcome A :=
  match body with
  | Raise ValueError => handler
  | other => other
  end.

(* ===================================================================== *)
(** * Strings *)
(* ===================================================================== *)

Definition code (c : ascii) : N := N_of_ascii c.

(** [str.isspace] on one character, for code points below 256: the
    controls 9..13 and 28..31, the space, NEL (133) and the no-break
    space (160). *)
Definition isspace (c : ascii) : bool :=
  let n := code c in
  ((9 <=? n) && (n <=? 13) || (28 <=? n) && (n <=? 32)
   || (n =? 133) || (n =? 160))%N.

(** [str.lower] on one character, for code points below 256: A..Z and
    the accented capitals 192..222 (the multiplication sign 215 apart)
    move up by 32. *)
Definition lower_char (c : ascii) : ascii :=
  let n := code c in
  if ((65 <=? n) && (n <=? 90)
      || (192 <=? n) && (n <=? 222) && negb (n =? 215))%N
  then ascii_of_N (n + 32)
  else c.

(** [str.lower], character by character.  This is what CPython does on
    code points below 256; beyond them lowercasing can depend on the
    neighbours of a character, which is outside this model. *)
Fixpoint lower (s : string) : string :=
  match s with
  | EmptyString => EmptyString
  | String c rest => String (lower_char c) (lower rest)
  end.

(** [len(s)] *)
Definition len (s : string) : Z := Z.of_nat (String.length s).

(** [str.split()] with no argument: the maximal runs of characters that
    are not whitespace, left to right.  [word] is the run being read. *)
Fixpoint split_from (word : string) (s : string) : list string :=
  match s with
  | EmptyString =>
      match word with
      | EmptyString => []
      | _ => [word]
      end
  | String c rest =>
      if isspace c then
        match word with
        | EmptyString => split_from EmptyString rest
        | _ => word :: split_from EmptyString rest
        end
      else split_from (word +:+ String c EmptyString) rest
  end.

Definition split (s : string) : list string := split_from EmptyString s.

(** [string.punctuation]: the 32 ASCII punctuation characters, in code
    order.  The double quote is written by its code. *)
Definition punctuation : string :=
  "!" +:+ String (ascii_of_N 34) "#$%&'()*+,-./:;<=>?@[\]^_`{|}~".

Fixpoint mem_char (c : ascii) (s : string) : bool :=
  match s with
  | EmptyString => false
  | String d rest => Ascii.eqb c d || mem_char c rest
  end.

(** The ASCII punctuation characters, by code: 33..47, 58..64, 91..96
    and 123..126. *)
Definition is_ascii_punctuation (c : ascii) : bool :=
  let n := code c in
  ((33 <=? n) && (n <=? 47) || (58 <=? n) && (n <=? 64)
   || (91 <=? n) && (n <=? 96) || (123 <=? n) && (n <=? 126))%N.

(** The compiled pattern ['[{}]'.format(re.escape(string.punctuation))]
    is one character class; escaping keeps every character literal, so
    the class matches exactly the characters of [string.punctuation]. *)
Definition pattern_match (c : ascii) : bool := mem_char c punctuation.

(** [pattern.sub('', token)]: every match is replaced by the empty
    string. *)
Fixpoint pattern_sub_empty (token : string) : string :=
  match token with
  | EmptyString => EmptyString
  | String c rest =>
      if pattern_match c then pattern_sub_empty rest
      else String c (pattern_sub_empty rest)
  end.

Definition remove_special_characters (token : string) : string :=
  let filtered_token := pattern_sub_empty token in
  filtered_token.

(* ===================================================================== *)
(** * Mapping words to indices *)
(* ===================================================================== *)

(** [list.index(x)]: the position of the first element equal to [x], or
    [ValueError]. *)
Fixpoint index_from (i : Z) (l : list string) (x : string) : outcome Z :=
  match l with
  | [] => Raise ValueError
  | y :: rest => if String.eqb y x then Return i else index_from (i + 1) rest x
  end.

Definition index (l : list string) (x : string) : outcome Z := index_from 0 l x.

(** A value of the contraction map.  The map is built from two columns
    of a spreadsheet read by pandas: a cell holds a [str], or, when it is
    empty, the float [nan], which has no [split] method.  (Keys that are
    not [str] can never equal a token and are left out.) *)
Inductive pyvalue : Type :=
  | Str (s : string)
  | NaN.

#[global] Instance pyvalue_eq_dec : EqDecision pyvalue.
Proof. solve_decision. Defined.

(** [v.split()] *)
Definition py_split (v : pyvalue) : outcome (list string) :=
  match v with
  | Str s => Return (split s)
  | NaN => Raise AttributeError
  end.

(** The default of the parameter [unk_word_index]. *)
Definition unk_word_index : Z := 399999.

Section ConvertToIndices.

Variable dictionary : list string.
Variable c_map : gmap string pyvalue.
Variable unk_word_index : Z.

(** [for resolved_word in resolved_words], threading [sequence]. *)
Fixpoint resolved_loop (resolved_words : list string) (sequence : list Z)
  : outcome (list Z) :=
  match resolved_words with
  | [] => Return sequence
  | resolved_word :: rest =>
      sequence ← try_except_ValueError
        (word_index ← index dictionary resolved_word;
         Return (sequence ++ [word_index]))
        (Return (sequence ++ [unk_word_index]));
      resolved_loop rest sequence
  end.

(** The body of [for word in tokens]. *)
Definition word_body (word : string) (sequence : list Z) : outcome (list Z) :=
  let word := lower word in
  match c_map !! word with
  | Some expansion =>
      resolved_words ← py_split expansion;
      resolved_loop resolved_words sequence
  | None =>
      try_except_ValueError
        (let clean_word := remove_special_characters word in
         if 0 <? len clean_word then
           word_index ← index dictionary clean_word;
           Return (sequence ++ [word_index])
         else Return sequence)
        (Return (sequence ++ [unk_word_index]))
  end.

Fixpoint token_loop (tokens : list string) (sequence : list Z)
  : outcome (list Z) :=
  match tokens with
  | [] => Return sequence
  | word :: rest =>
      sequence ← word_body word sequence;
      token_loop rest sequence
  end.

(** [for i in range(len(corpus))], reading [corpus[i]] and threading
    [sequences]. *)
Fixpoint corpus_loop (corpus : list string) (sequences : list (list Z))
  : outcome (list (list Z)) :=
  match corpus with
  | [] => Return sequences
  | claim :: rest =>
      let tokens := split claim in
      sequence ← token_loop tokens [];
      corpus_loop rest (sequences ++ [sequence])
  end.

End ConvertToIndices.

Definition convert_to_indices (corpus : list string) (dictionary : list string)
    (c_map : gmap string pyvalue) (unk_word_index : Z) : outcome (list (list Z)) :=
  corpus_loop dictionary c_map unk_word_index corpus [].

(** The index that a looked-up word contributes: its position, or
    [unk] when [list.index] raises [ValueError]. *)
Definition index_or_unk (dictionary : list string) (unk : Z) (w : string) : Z :=
  match index dictionary w with
  | Return i => i
  | Raise _ => unk
  end.

(** The words of one token on which [convert_to_indices] calls
    [dictionary.index], in order: the words of the expansion for a
    contraction, the cleaned token when it is not empty otherwise. *)
Definition looked_up_words (c_map : gmap string pyvalue) (token : string)
  : list string :=
  let word := lower token in
  match c_map !! word with
  | Some (Str expansion) => split expansion
  | Some NaN => []
  | None =>
      let clean_word := remove_special_characters word in
      if 0 <? len clean_word then [clean_word] else []
  end.

(** The sequence of one claim: the indices of the words looked up for
    its tokens, left to right. *)
Definition claim_sequence (dictionary : list string) (c_map : gmap string pyvalue)
    (unk : Z) (claim : string) : list Z :=
  map (index_or_unk dictionary unk) (flat_map (looked_up_words c_map) (split claim)).

(** Some token of the corpus is a key whose value is not a [str]. *)
Definition reaches_nan (c_map : gmap string pyvalue) (corpus : list string) : Prop :=
  ∃ claim token, claim ∈ corpus ∧ token ∈ split claim ∧ c_map !! lower token = Some NaN.

(** [i] is the position of the first occurrence of [w] in [dictionary]. *)
Definition first_occurrence (dictionary : list string) (w : string) (i : Z) : Prop :=
  0 <= i ∧ dictionary !! Z.to_nat i = Some w
  ∧ ∀ j : nat, (j < Z.to_nat i)%nat → dictionary !! j ≠ Some w.

(** The words that replace a token: the words of the expansion for a
    contraction, the stripped token otherwise, empty or not. *)
Definition resulting_words (cm : gmap string string) (token : string) : list string :=
  let word := lower token in
  match cm !! word with
  | Some expansion => split expansion
  | None => [remove_special_characters word]
  end.

(** [len(s) > 0] *)
Definition nonempty (s : string) : bool :=
  match s with
  | EmptyString => false
  | _ => true
  end.

(* ===================================================================== *)
(** * Labels *)
(* ===================================================================== *)

Definition newline : string := String (ascii_of_N 10) EmptyString.

(** [re.sub] of every newline of [label] by the empty string. *)
Fixpoint re_sub_newline (label : string) : string :=
  match label with
  | EmptyString => EmptyString
  | String c rest =>
      if (code c =? 10)%N then re_sub_newline rest
      else String c (re_sub_newline rest)
  end.

(** The whitespace that [int] drops around a literal, for code points
    below 256: the controls 9..13, the space, NEL (133) and the no-break
    space (160).  The separators 28..31, which [str.split] treats as
    whitespace, are not dropped. *)
Definition int_space (c : ascii) : bool :=
  let n := code c in
  ((9 <=? n) && (n <=? 13) || (n =? 32) || (n =? 133) || (n =? 160))%N.

Fixpoint lstrip (s : string) : string :=
  match s with
  | EmptyString => EmptyString
  | String c rest => if int_space c then lstrip rest else s
  end.

Fixpoint rstrip (s : string) : string :=
  match s with
  | EmptyString => EmptyString
  | String c rest =>
      match rstrip rest with
      | EmptyString => if int_space c then EmptyString else String c EmptyString
      | kept => String c kept
      end
  end.

Definition digit_value (c : ascii) : option Z :=
  let n := code c in
  if ((48 <=? n) && (n <=? 57))%N then Some (Z.of_N n - 48) else None.

(** The digits of a decimal literal; one underscore may stand between
    two digits.  [after_digit] tells whether the last character read was
    a digit. *)
Fixpoint digits_value (acc : Z) (after_digit : bool) (s : string) : outcome Z :=
  match s with
  | EmptyString => if after_digit then Return acc else Raise ValueError
  | String c rest =>
      match digit_value c with
      | Some d => digits_value (10 * acc + d) true rest
      | None =>
          if (code c =? 95)%N && after_digit then digits_value acc false rest
          else Raise ValueError
      end
  end.

(** [int(s)] for a [str] in base 10: surrounding whitespace is dropped,
    a sign may come first, and anything else than a decimal literal
    raises [ValueError]. *)
Definition py_int (s : string) : outcome Z :=
  match rstrip (lstrip s) with
  | String "-" digits => n ← digits_value 0 false digits; Return (- n)
  | String "+" digits => digits_value 0 false digits
  | digits => digits_value 0 false digits
  end.

(** The comprehension over the lines of the labels file: [int] of each
    line without its newlines, in file order. *)
Definition parse_labels (lines : list string) : outcome (list Z) :=
  mapM (fun label => py_int (re_sub_newline label)) lines.

(** A row of [num_classes] zeros with a one at column [k]. *)
Definition one_hot (num_classes : Z) (k : Z) : list Z :=
  map (fun j => if Z.of_nat j =? k then 1 else 0) (seq 0 (Z.to_nat num_classes)).

(** Modelled from the spec: [keras.utils.to_categorical] is a library
    function, not part of the notebook.  It builds one row of
    [num_classes] zeros per label and writes a one at the label's column
    by array indexing: a column in [-num_classes, 0) counts from the end
    and any other column outside [0, num_classes) raises [IndexError].
    The entries 0.0 and 1.0 are written 0 and 1. *)
Definition to_categorical (y : list Z) (num_classes : Z) : outcome (list (list Z)) :=
  mapM (fun label =>
          if (- num_classes <=? label) && (label <? num_classes)
          then Return (one_hot num_classes (label mod num_classes))
          else Raise IndexError) y.

(* ===================================================================== *)
(** * Padding *)
(* ===================================================================== *)

Definition maxSeqLength : Z := 125.

(** [s[-n:]] for [n > 0]: the last [n] elements. *)
Definition last_n {A : Type} (n : nat) (s : list A) : list A :=
  drop (length s - n)%nat s.

(** Modelled from the spec: one row of [pad_sequences].  A sequence
    longer than [maxlen] is cut at the front (['pre']) or at the back
    (['post']), and a shorter one is filled with [value] before (['pre'])
    or after (['post']) its entries.  An empty sequence gives a row of
    [value] without looking at the modes; any other mode raises
    [ValueError]. *)
Definition pad_row (maxlen : Z) (padding truncating : string) (value : Z)
    (s : list Z) : outcome (list Z) :=
  let n := Z.to_nat maxlen in
  match s with
  | [] => Return (repeat value n)
  | _ =>
      trunc ← (if String.eqb truncating "pre" then Return (last_n n s)
               else if String.eqb truncating "post" then Return (take n s)
               else Raise ValueError);
      let fill := repeat value (n - length trunc)%nat in
      if String.eqb padding "post" then Return (trunc ++ fill)
      else if String.eqb padding "pre" then Return (fill ++ trunc)
      else Raise ValueError
  end.

(** Modelled from the spec: [keras.preprocessing.sequence.pad_sequences]
    is a library function, not part of the notebook.  For [maxlen > 0] it
    returns one row of [maxlen] entries per sequence, padded with 0. *)
Definition pad_sequences (sequences : list (list Z)) (maxlen : Z)
    (padding truncating : string) : outcome (list (list Z)) :=
  mapM (pad_row maxlen padding truncating 0) sequences.

(* ===================================================================== *)
(** * The embedding layer *)
(* ===================================================================== *)

(** [word_vectors.shape[0]]: the number of rows of the table. *)
Definition shape0 {V : Type} (word_vectors : list (list V)) : Z :=
  Zlength word_vectors.

(** [word_vectors.shape[1]]: the width of a row. *)
Definition shape1 {V : Type} (word_vectors : list (list V)) : Z :=
  match word_vectors with
  | [] => 0
  | row :: _ => Zlength row
  end.

Record Embedding : Type := {
  input_dim : Z;
  output_dim : Z;
  input_length : Z;
  trainable : bool
}.

(** [Embedding(word_vectors.shape[0], word_vectors.shape[1],
    weights=[word_vectors], input_length=maxSeqLength, trainable=False)] *)
Definition embedding_layer {V : Type} (word_vectors : list (list V)) : Embedding :=
  {| input_dim := shape0 word_vectors;
     output_dim := shape1 word_vectors;
     input_length := maxSeqLength;
     trainable := false |}.

(** The rows that a layer can look up are [0 .. input_dim - 1]. *)
Definition valid_row (layer : Embedding) (i : Z) : Prop :=
  0 <= i < input_dim layer.

(* ===================================================================== *)
(** * The data preparation cells *)
(* ===================================================================== *)

(** A text file is the list of lines that iterating over it yields, each
    with its line end.  [store] maps a path (or a URL) to a file. *)
Abbreviation store := (gmap string (list string)).

(** A cell's code reads and writes the local files and may raise. *)
Definition script (A : Type) : Type := store → outcome (A * store).

#[global] Instance script_ret : MRet script := fun A a files => Return (a, files).

#[global] Instance script_bind : MBind script := fun A B f m files =>
  match m files with
  | Return (a, files') => f a files'
  | Raise e => Raise e
  end.

(** A computation that touches no file. *)
Definition pure {A : Type} (o : outcome A) : script A := fun files =>
  match o with
  | Return a => Return (a, files)
  | Raise e => Raise e
  end.

(** [os.path.join(a, b)] for two components. *)
Definition os_path_join (a b : string) : string :=
  match b with
  | String "/" _ => b
  | _ =>
      match a with
      | EmptyString => b
      | _ => if String.eqb (String.substring (String.length a - 1) 1 a) "/"
             then a +:+ b else a +:+ "/" +:+ b
      end
  end.

Section Script.

(** What the network serves: the file behind each URL that can be
    fetched. *)
Variable remote : store.

(** [urllib.request.urlretrieve(url, filename)] *)
Definition urlretrieve (url filename : string) : script unit := fun files =>
  match remote !! url with
  | Some body => Return (tt, <[filename := body]> files)
  | None => Raise URLError
  end.

(** [[line for line in open(path)]] *)
Definition open_lines (path : string) : script (list string) := fun files =>
  match files !! path with
  | Some lines => Return (lines, files)
  | None => Raise FileNotFoundError
  end.

Definition data_location : string := "./data".
Definition base_data_url : string :=
  "https://databricksdemostore.blob.core.windows.net/data/05.03/".
Definition filesToDownload : list string := ["claims_text.txt"; "claims_labels.txt"].

(** [for file in filesToDownload] *)
Fixpoint download_loop (to_download : list string) : script unit :=
  match to_download with
  | [] => mret tt
  | file :: rest =>
      let data_url := os_path_join base_data_url file in
      let local_file_path := os_path_join data_location file in
      _ ← urlretrieve data_url local_file_path;
      download_loop rest
  end.

Variable dictionary : list string.
Variable contractions : gmap string pyvalue.

(** The assignments of the cells from the download of the claims to
    the padded matrix [X], in notebook order; the result is
    [(claims_corpus, labels, X)].  The creation of the data directory
    and the statements that only print are left out, so a run of the
    notebook can fail where this returns, never the other way round. *)
Definition prepare_training_data
  : script (list string * list (list Z) * list (list Z)) :=
  _ ← download_loop filesToDownload;
  claims_corpus ← open_lines (os_path_join data_location "claims_text.txt");
  label_lines ← open_lines (os_path_join data_location "claims_labels.txt");
  labels ← pure (parse_labels label_lines);
  labels ← pure (to_categorical labels 2);
  claims_corpus_indices ←
    pure (convert_to_indices claims_corpus dictionary contractions unk_word_index);
  X ← pure (pad_sequences claims_corpus_indices maxSeqLength "pre" "post");
  mret (claims_corpus, labels, X).

End Script.

(* ===================================================================== *)
(** * Statements about words and indices *)
(* ===================================================================== *)

(** Every word of [words] that occurs in [dictionary] contributes the
    index of its first occurrence to [sequence], and these indices stand
    in [sequence] in the order of their words. *)
Definition contributes_in_order (dictionary : list string) (words : list string)
    (sequence : list Z) : Prop :=
  ∃ indices,
    Forall2 (first_occurrence dictionary)
            (filter (fun w => w ∈ dictionary) words) indices
    ∧ indices `sublist_of` sequence.

(** [convert_to_indices] returns one sequence per claim, and in each the
    words [words_of token] of the claim's tokens, taken left to right,
    contribute their first indices in order. *)
Definition words_to_first_indices (words_of : string → list string)
    (corpus dictionary : list string) (cm : gmap string string) : Prop :=
  ∃ sequences,
    convert_to_indices corpus dictionary (Str <$> cm) unk_word_index
    = Return sequences
    ∧ Forall2 (fun claim sequence =>
                 contributes_in_order dictionary
                   (flat_map words_of (split claim)) sequence)
              corpus sequences.

(** A token made of punctuation only. *)
Definition only_punctuation (token : string) : Prop :=
  List.Forall (fun c => pattern_match c = true) (list_ascii_of_string token).

(** A label is binary when it is 0 or 1. *)
Definition binary (label : Z) : Prop := label = 0 ∨ label = 1.

(** The labels read from [label_lines] are binary and as many as the
    claims, whatever the two files hold. *)
Definition labels_parallel_binary (claims_corpus label_lines : list string) : Prop :=
  ∀ labels, parse_labels label_lines = Return labels →
            Forall binary labels ∧ length labels = length claims_corpus.

(** The two files that the data cells fetch. *)
Definition claims_text_url : string := os_path_join base_data_url "claims_text.txt".
Definition claims_labels_url : string := os_path_join base_data_url "claims_labels.txt".

(** Where the two files are stored. *)
Definition claims_text_path : string := os_path_join data_location "claims_text.txt".
Definition claims_labels_path : string := os_path_join data_location "claims_labels.txt".

(* ===================================================================== *)
(** * Sample data *)
(* ===================================================================== *)

Definition sample_contractions : gmap string string :=
  <["can't" := "cannot"]> (<["i'm" := "I am"]> ∅).

Definition sample_dictionary : list string :=
  ["i"; "cannot"; "cant"; "crash"; "am"].

(** A dictionary and a table of 400,000 entries. *)
Definition big_dictionary : list string :=
  Pos.iter (cons "word") ["crash"] 399999.

Definition big_word_vectors : list (list Z) :=
  Pos.iter (cons [0; 0]) [] 400000.

Definition sample_remote : store :=
  <[claims_text_url := ["I can't crash" +:+ newline; "The flood !" +:+ newline]]>
    (<[claims_labels_url := ["1" +:+ newline; "0" +:+ newline]]> ∅).

(** A contraction map with an empty cell. *)
Definition sample_broken_contractions : gmap string pyvalue :=
  <["can't" := Str "cannot"]> (<["won't" := NaN]> ∅).

(* ===================================================================== *)
(** * The other cells *)
(* ===================================================================== *)

(** The review cell prints [remove_special_characters(claim).split()]
    next to the indices of the claim. *)
Definition review_words (claim : string) : list string :=
  split (remove_special_characters claim).

(** [dict(zip(keys, values))]: the pairs are stored left to right, a
    later pair replaces an earlier one with the same key, and [zip] stops
    at the shorter column.  A key that is not a [str] can never equal a
    token and is left out. *)
Fixpoint dict_zip (d : gmap string pyvalue) (keys values : list pyvalue)
  : gmap string pyvalue :=
  match keys, values with
  | key :: keys', value :: values' =>
      dict_zip (match key with
                | Str k => <[k := value]> d
                | NaN => d
                end) keys' values'
  | _, _ => d
  end.

(** [contractions = dict(zip(contractions_df.original,
    contractions_df.expanded))] *)
Definition contractions_of (original expanded : list pyvalue)
  : gmap string pyvalue :=
  dict_zip ∅ original expanded.

(** [table[i]] for an integer [i]: row [i], counted from the end when
    [i] is negative, and [IndexError] outside the table. *)
Definition getitem {V : Type} (table : list V) (i : Z) : outcome V :=
  let n := Zlength table in
  let k := if i <? 0 then n + i else i in
  if (0 <=? k) && (k <? n) then
    match table !! Z.to_nat k with
    | Some row => Return row
    | None => Raise IndexError
    end
  else Raise IndexError.

(** [word_vectors[dictionary.index(w)]], the vector of a word in the
    analogy cells. *)
Definition word_vector {V : Type} (dictionary : list string)
    (word_vectors : list V) (w : string) : outcome V :=
  i ← index dictionary w;
  getitem word_vectors i.

(** The two steps that turn claim texts into the input matrix of the
    network: [convert_to_indices], then [pad_sequences] with
    [maxlen=maxSeqLength], [padding='pre'] and [truncating='post']. *)
Definition test_data (test_claim dictionary : list string)
    (contractions : gmap string pyvalue) : outcome (list (list Z)) :=
  test_claim_indices ←
    convert_to_indices test_claim dictionary contractions unk_word_index;
  pad_sequences test_claim_indices maxSeqLength "pre" "post".

(** A claim of whitespace only (the empty claim included). *)
Definition blank (s : string) : Prop :=
  List.Forall (fun c => isspace c = true) (list_ascii_of_string s).

(* ===================================================================== *)
(** * Facts about strings *)
(* ===================================================================== *)

Lemma pattern_match_codes (c : ascii) : pattern_match c = is_ascii_punctuation c.
Proof.
  destruct c as [[] [] [] [] [] [] [] []]; vm_compute; reflexivity.
Qed.

Lemma pattern_sub_empty_filter (token : string) :
  list_ascii_of_string (pattern_sub_empty token)
  = List.filter (fun c => negb (pattern_match c)) (list_ascii_of_string token).
Proof.
  induction token as [|c rest IH]; simpl; [reflexivity|].
  destruct (pattern_match c); simpl; now rewrite IH.
Qed.

Lemma pattern_sub_empty_clean (token : string) :
  List.Forall (fun c => pattern_match c = false)
    (list_ascii_of_string (pattern_sub_empty token)).
Proof.
  induction token as [|c rest IH]; simpl; [constructor|].
  destruct (pattern_match c) eqn:E; simpl; [exact IH|].
  constructor; assumption.
Qed.

Lemma pattern_sub_empty_fixed (token : string) :
  List.Forall (fun c => pattern_match c = false) (list_ascii_of_string token) →
  pattern_sub_empty token = token.
Proof.
  induction token as [|c rest IH]; simpl; intros H; [reflexivity|].
  inversion H as [|? ? Hc Hrest]; subst.
  rewrite Hc. f_equal. apply IH, Hrest.
Qed.

Lemma pattern_sub_empty_length (token : string) :
  (String.length (pattern_sub_empty token) <= String.length token)%nat.
Proof.
  induction token as [|c rest IH]; simpl; [lia|].
  destruct (pattern_match c); simpl; lia.
Qed.

Lemma pattern_sub_empty_all (token : string) :
  List.Forall (fun c => pattern_match c = true) (list_ascii_of_string token) →
  pattern_sub_empty token = EmptyString.
Proof.
  induction token as [|c rest IH]; simpl; intros H; [reflexivity|].
  inversion H as [|? ? Hc Hrest]; subst.
  rewrite Hc. apply IH, Hrest.
Qed.

Lemma lower_length (s : string) : String.length (lower s) = String.length s.
Proof. induction s; simpl; congruence. Qed.

Lemma len_pos_nonempty (s : string) : (0 <? len s) = nonempty s.
Proof. destruct s; reflexivity. Qed.

Lemma append_nonempty (word : string) (c : ascii) :
  nonempty (word +:+ String c EmptyString) = true.
Proof. destruct word; reflexivity. Qed.

(** Every token of [split] has at least one character. *)
Lemma split_from_nonempty (s word : string) :
  List.Forall (fun t => nonempty t = true) (split_from word s).
Proof.
  revert word; induction s as [|c rest IH]; intros word; simpl.
  - destruct word; repeat constructor.
  - destruct (isspace c).
    + destruct word; [apply IH|]. constructor; [reflexivity|apply IH].
    + apply IH.
Qed.

Lemma split_nonempty (s : string) :
  List.Forall (fun t => nonempty t = true) (split s).
Proof. apply split_from_nonempty. Qed.

(* ===================================================================== *)
(** * Facts about [list.index] *)
(* ===================================================================== *)

Lemma index_from_raise (l : list string) (i : Z) (x : string) (e : exception) :
  index_from i l x = Raise e → e = ValueError ∧ x ∉ l.
Proof.
  revert i; induction l as [|y rest IH]; simpl; intros i H.
  - split; [congruence|]. apply not_elem_of_nil.
  - destruct (String.eqb y x) eqn:E; [discriminate|].
    apply String.eqb_neq in E.
    destruct (IH _ H) as [-> Hnot]. split; [reflexivity|].
    intros [->|Hin]%elem_of_cons; [congruence|contradiction].
Qed.

Lemma index_from_return (l : list string) (i k : Z) (x : string) :
  index_from i l x = Return k →
  i <= k < i + Z.of_nat (length l)
  ∧ l !! Z.to_nat (k - i) = Some x
  ∧ ∀ j : nat, (j < Z.to_nat (k - i))%nat → l !! j ≠ Some x.
Proof.
  revert i; induction l as [|y rest IH]; simpl; intros i H; [discriminate|].
  destruct (String.eqb y x) eqn:E.
  - apply String.eqb_eq in E. injection H as <-. subst y.
    replace (i - i) with 0 by lia. simpl.
    split; [lia|]. split; [reflexivity|]. intros j Hj; lia.
  - apply String.eqb_neq in E.
    destruct (IH _ H) as (Hr & Hl & Hf).
    replace (Z.to_nat (k - i)) with (S (Z.to_nat (k - (i + 1)))) by lia.
    split; [lia|]. split; [exact Hl|].
    intros [|j] Hj; simpl; [congruence|]. apply Hf. lia.
Qed.

Lemma index_from_elem (l : list string) (i : Z) (x : string) :
  x ∈ l → ∃ k, index_from i l x = Return k.
Proof.
  revert i; induction l as [|y rest IH]; intros i Hin; simpl.
  - apply elem_of_nil in Hin as [].
  - destruct (String.eqb y x) eqn:E; [eauto|].
    apply String.eqb_neq in E.
    apply elem_of_cons in Hin as [->|Hin]; [congruence|]. apply IH, Hin.
Qed.

Lemma index_first_occurrence (dictionary : list string) (w : string) (i : Z) :
  index dictionary w = Return i → first_occurrence dictionary w i.
Proof.
  intros H. apply index_from_return in H as (Hr & Hl & Hf).
  rewrite Z.sub_0_r in Hl, Hf. unfold first_occurrence. split; [lia|]. auto.
Qed.

Lemma index_or_unk_elem (dictionary : list string) (unk : Z) (w : string) :
  w ∈ dictionary → first_occurrence dictionary w (index_or_unk dictionary unk w).
Proof.
  intros Hin. unfold index_or_unk.
  destruct (index_from_elem dictionary 0 w Hin) as [k Hk].
  unfold index in *. rewrite Hk. apply index_first_occurrence, Hk.
Qed.

Lemma index_or_unk_absent (dictionary : list string) (unk : Z) (w : string) :
  w ∉ dictionary → index dictionary w = Raise ValueError
                   ∧ index_or_unk dictionary unk w = unk.
Proof.
  intros Hnot. unfold index_or_unk.
  destruct (index dictionary w) as [k|e] eqn:E.
  - apply index_from_return in E as (_ & Hl & _).
    exfalso. apply Hnot. eapply list_elem_of_lookup_2, Hl.
  - apply index_from_raise in E as [-> _]. auto.
Qed.

Lemma index_or_unk_range (dictionary : list string) (unk : Z) (w : string) :
  0 <= index_or_unk dictionary unk w < Z.of_nat (length dictionary)
  ∨ index_or_unk dictionary unk w = unk.
Proof.
  unfold index_or_unk. destruct (index dictionary w) as [k|e] eqn:E; [|auto].
  apply index_from_return in E as (Hr & _). left. lia.
Qed.

(* ===================================================================== *)
(** * [convert_to_indices] as a map over claims *)
(* ===================================================================== *)

Section ConvertFacts.

Variable dictionary : list string.
Variable c_map : gmap string pyvalue.
Variable unk : Z.

Lemma try_index (w : string) (sequence : list Z) :
  try_except_ValueError
    (word_index ← index dictionary w; Return (sequence ++ [word_index]))
    (Return (sequence ++ [unk]))
  = Return (sequence ++ [index_or_unk dictionary unk w]).
Proof.
  unfold index_or_unk. destruct (index dictionary w) as [k|e] eqn:E; simpl.
  - reflexivity.
  - apply index_from_raise in E as [-> _]. reflexivity.
Qed.

Lemma resolved_loop_map (words : list string) (sequence : list Z) :
  resolved_loop dictionary unk words sequence
  = Return (sequence ++ map (index_or_unk dictionary unk) words).
Proof.
  revert sequence; induction words as [|w rest IH]; intros sequence; simpl.
  - now rewrite app_nil_r.
  - rewrite try_index. simpl. rewrite IH, <- app_assoc. reflexivity.
Qed.

Lemma word_body_nan (token : string) (sequence : list Z) :
  c_map !! lower token = Some NaN →
  word_body dictionary c_map unk token sequence = Raise AttributeError.
Proof. intros H. unfold word_body. rewrite H. reflexivity. Qed.

Lemma word_body_map (token : string) (sequence : list Z) :
  c_map !! lower token ≠ Some NaN →
  word_body dictionary c_map unk token sequence
  = Return (sequence
            ++ map (index_or_unk dictionary unk) (looked_up_words c_map token)).
Proof.
  intros H. unfold word_body, looked_up_words.
  destruct (c_map !! lower token) as [[e|]|]; [| congruence |].
  - simpl. apply resolved_loop_map.
  - destruct (0 <? len (remove_special_characters (lower token))).
    + apply try_index.
    + simpl. now rewrite app_nil_r.
Qed.

Lemma token_loop_map (tokens : list string) (sequence : list Z) :
  (∀ token, token ∈ tokens → c_map !! lower token ≠ Some NaN) →
  token_loop dictionary c_map unk tokens sequence
  = Return (sequence ++ map (index_or_unk dictionary unk)
                          (flat_map (looked_up_words c_map) tokens)).
Proof.
  revert sequence; induction tokens as [|t rest IH]; intros sequence H; simpl.
  - now rewrite app_nil_r.
  - rewrite word_body_map by (apply H; left). simpl.
    rewrite IH by (intros; apply H; now right).
    now rewrite map_app, app_assoc.
Qed.

Lemma token_loop_nan (tokens : list string) (sequence : list Z) (token : string) :
  token ∈ tokens → c_map !! lower token = Some NaN →
  token_loop dictionary c_map unk tokens sequence = Raise AttributeError.
Proof.
  revert sequence; induction tokens as [|t rest IH]; intros sequence Hin Hnan.
  - apply elem_of_nil in Hin as [].
  - simpl. destruct (decide (c_map !! lower t = Some NaN)) as [Ht|Ht].
    + now rewrite word_body_nan.
    + rewrite word_body_map by exact Ht. simpl.
      apply elem_of_cons in Hin as [->|Hin]; [contradiction|]. now apply IH.
Qed.

Lemma corpus_loop_map (corpus : list string) (sequences : list (list Z)) :
  ¬ reaches_nan c_map corpus →
  corpus_loop dictionary c_map unk corpus sequences
  = Return (sequences ++ map (claim_sequence dictionary c_map unk) corpus).
Proof.
  revert sequences; induction corpus as [|claim rest IH];
    intros sequences H; simpl.
  - now rewrite app_nil_r.
  - rewrite token_loop_map.
    + simpl. rewrite IH, <- app_assoc; [reflexivity|].
      intros (cl & tok & Hcl & Htok & Hnan). apply H.
      exists cl, tok. split; [now right|auto].
    + intros tok Htok Hnan. apply H. exists claim, tok. split; [now left|auto].
Qed.

Lemma corpus_loop_nan (corpus : list string) (sequences : list (list Z)) :
  reaches_nan c_map corpus →
  corpus_loop dictionary c_map unk corpus sequences = Raise AttributeError.
Proof.
  revert sequences; induction corpus as [|claim rest IH];
    intros sequences (cl & tok & Hcl & Htok & Hnan).
  - apply elem_of_nil in Hcl as [].
  - simpl.
    destruct (token_loop dictionary c_map unk (split claim) [])
      as [sequence|e] eqn:E.
    + simpl. apply IH. exists cl, tok.
      apply elem_of_cons in Hcl as [->|Hcl]; [|auto].
      rewrite (token_loop_nan _ _ tok) in E by assumption. discriminate.
    + simpl. f_equal.
      destruct (decide (Exists (fun t => c_map !! lower t = Some NaN) (split claim)))
        as [Hex|Hno].
      * apply Exists_exists in Hex as (t & Ht & Hn).
        rewrite (token_loop_nan _ _ t) in E by assumption. congruence.
      * rewrite token_loop_map in E; [discriminate|].
        intros t Ht Hn. apply Hno, Exists_exists. eauto.
Qed.

End ConvertFacts.

Lemma reaches_nan_dec (c_map : gmap string pyvalue) (corpus : list string) :
  reaches_nan c_map corpus ∨ ¬ reaches_nan c_map corpus.
Proof.
  destruct (decide (Exists (fun claim =>
              Exists (fun t => c_map !! lower t = Some NaN) (split claim)) corpus))
    as [Hex|Hno].
  - left. apply Exists_exists in Hex as (claim & Hc & Hex).
    apply Exists_exists in Hex as (t & Ht & Hn). exists claim, t. auto.
  - right. intros (claim & t & Hc & Ht & Hn). apply Hno.
    apply Exists_exists. exists claim. split; [exact Hc|].
    apply Exists_exists. eauto.
Qed.

Lemma reaches_nan_text (cm : gmap string string) (corpus : list string) :
  ¬ reaches_nan (Str <$> cm) corpus.
Proof.
  intros (claim & t & _ & _ & Hn). rewrite lookup_fmap in Hn.
  destruct (cm !! lower t); discriminate.
Qed.

Lemma convert_to_indices_map (corpus dictionary : list string)
    (c_map : gmap string pyvalue) (unk : Z) :
  ¬ reaches_nan c_map corpus →
  convert_to_indices corpus dictionary c_map unk
  = Return (map (claim_sequence dictionary c_map unk) corpus).
Proof. intros H. unfold convert_to_indices. now rewrite corpus_loop_map. Qed.

Lemma convert_to_indices_nan (corpus dictionary : list string)
    (c_map : gmap string pyvalue) (unk : Z) :
  reaches_nan c_map corpus →
  convert_to_indices corpus dictionary c_map unk = Raise AttributeError.
Proof. apply corpus_loop_nan. Qed.

Lemma convert_to_indices_text (corpus dictionary : list string)
    (cm : gmap string string) (unk : Z) :
  convert_to_indices corpus dictionary (Str <$> cm) unk
  = Return (map (claim_sequence dictionary (Str <$> cm) unk) corpus).
Proof. apply convert_to_indices_map, reaches_nan_text. Qed.

Lemma Forall2_map_same {A B : Type} (R : A → B → Prop) (f : A → B) (l : list A) :
  (∀ x, x ∈ l → R x (f x)) → Forall2 R l (map f l).
Proof.
  induction l as [|x l IH]; intros H; simpl; constructor.
  - apply H. now left.
  - apply IH. intros y Hy. apply H. now right.
Qed.

(** What a token contributes, read off the contraction map. *)
Lemma looked_up_words_text (cm : gmap string string) (token : string) :
  looked_up_words (Str <$> cm) token
  = match cm !! lower token with
    | Some expansion => split expansion
    | None => filter (fun w => nonempty w = true)
                [remove_special_characters (lower token)]
    end.
Proof.
  unfold looked_up_words. rewrite lookup_fmap.
  destruct (cm !! lower token) as [e|]; simpl; [reflexivity|].
  rewrite len_pos_nonempty.
  destruct (remove_special_characters (lower token)); reflexivity.
Qed.

Lemma filter_nonempty_id (l : list string) :
  List.Forall (fun t => nonempty t = true) l →
  filter (fun w => nonempty w = true) l = l.
Proof.
  induction 1 as [|x l Hx Hl IH]; [reflexivity|].
  rewrite filter_cons_True by exact Hx. now rewrite IH.
Qed.

Lemma looked_up_words_resulting (cm : gmap string string) (token : string) :
  looked_up_words (Str <$> cm) token
  = filter (fun w => nonempty w = true) (resulting_words cm token).
Proof.
  rewrite looked_up_words_text. unfold resulting_words.
  destruct (cm !! lower token) as [e|]; [|reflexivity].
  symmetry. apply filter_nonempty_id, split_nonempty.
Qed.

Lemma flat_map_ext_eq {A B : Type} (f g : A → list B) (l : list A) :
  (∀ x, f x = g x) → flat_map f l = flat_map g l.
Proof. intros H. induction l; simpl; [reflexivity|]. now rewrite H, IHl. Qed.

Lemma sublist_map_filter {A B : Type} (f : A → B) (P : A → Prop)
    `{!∀ x, Decision (P x)} (l : list A) :
  map f (filter P l) `sublist_of` map f l.
Proof.
  induction l as [|x l IH]; simpl; [constructor|].
  rewrite filter_cons. destruct (decide (P x)); simpl.
  - now apply sublist_skip.
  - now apply sublist_cons.
Qed.

Lemma contributes_in_order_map (dictionary : list string) (unk : Z)
    (words : list string) :
  contributes_in_order dictionary words (map (index_or_unk dictionary unk) words).
Proof.
  exists (map (index_or_unk dictionary unk) (filter (fun w => w ∈ dictionary) words)).
  split.
  - apply Forall2_map_same. intros w Hw.
    apply list_elem_of_filter in Hw as [Hin _]. now apply index_or_unk_elem.
  - apply sublist_map_filter.
Qed.

(* ===================================================================== *)
(** * Properties of [convert_to_indices] *)
(* ===================================================================== *)

(** C1.  For every corpus, dictionary and contraction map, each word
    that [convert_to_indices] looks up in the dictionary and that is
    absent from it puts the placeholder 399999 at that word's place in
    the output; the absent word is the [ValueError] of [list.index], and
    it is the only failure handled: the call raises exactly when a token
    is a key whose value has no [split], and then it raises that
    [AttributeError]. *)
Theorem C1_unknown_word_placeholder (corpus dictionary : list string) :
  (∀ cm : gmap string string,
     ∃ sequences,
       convert_to_indices corpus dictionary (Str <$> cm) unk_word_index
       = Return sequences
       ∧ Forall2 (fun claim sequence =>
                    Forall2 (fun w i => w ∉ dictionary → i = 399999)
                      (flat_map (looked_up_words (Str <$> cm)) (split claim))
                      sequence)
                 corpus sequences)
  ∧ (∀ w, w ∉ dictionary → index dictionary w = Raise ValueError)
  ∧ (∀ (c_map : gmap string pyvalue) (e : exception),
       convert_to_indices corpus dictionary c_map unk_word_index = Raise e
       ↔ e = AttributeError ∧ reaches_nan c_map corpus).
Proof.
  split; [|split].
  - intros cm. eexists. split; [apply convert_to_indices_text|].
    apply Forall2_map_same. intros claim _. unfold claim_sequence.
    apply Forall2_map_same. intros w _ Hw.
    now apply index_or_unk_absent.
  - intros w Hw. now apply index_or_unk_absent with (unk := 0).
  - intros c_map e. split.
    + intros H. destruct (reaches_nan_dec c_map corpus) as [Hn|Hn].
      * rewrite convert_to_indices_nan in H by exact Hn. split; congruence.
      * rewrite convert_to_indices_map in H by exact Hn. discriminate.
    + intros [-> Hn]. now apply convert_to_indices_nan.
Qed.

(** C2, as stated, fails when a token is stripped to the empty string
    and the dictionary holds the empty string: the claim ["!"] has the
    resulting word [EmptyString], which occurs in the dictionary
    [[EmptyString]] at position 0, and the sequence returned for it is
    empty. *)
Lemma C2_empty_word_counterexample :
  ¬ words_to_first_indices (resulting_words ∅) ["!"] [EmptyString] ∅.
Proof.
  intros (sequences & Hrun & Hall).
  vm_compute in Hrun. injection Hrun as <-.
  apply Forall2_cons_1 in Hall as [(indices & Hfirst & Hsub) _].
  change (flat_map (resulting_words ∅) (split "!")) with [EmptyString] in Hfirst.
  rewrite filter_cons_True in Hfirst by (now left).
  apply sublist_nil_r in Hsub. subst indices. inversion Hfirst.
Qed.

(** C2, amended.  For every claim of the corpus, [convert_to_indices]
    takes the whitespace-split tokens left to right; each token is
    lowercased, replaced by the words of its expansion when it is a key
    of the contraction map, and stripped of punctuation otherwise.  Every
    resulting word that is not empty contributes one index, in the order
    of the words, and for a word that occurs in the dictionary this is
    the index of its first occurrence. *)
Theorem C2_words_to_indices (corpus dictionary : list string)
    (cm : gmap string string) :
  let words_of token :=
    filter (fun w => nonempty w = true) (resulting_words cm token) in
  words_to_first_indices words_of corpus dictionary cm
  ∧ convert_to_indices corpus dictionary (Str <$> cm) unk_word_index
    = Return (map (fun claim =>
                     map (index_or_unk dictionary unk_word_index)
                         (flat_map words_of (split claim)))
                  corpus)
  ∧ ∀ w, w ∈ dictionary →
         first_occurrence dictionary w (index_or_unk dictionary unk_word_index w).
Proof.
  intros words_of.
  assert (Hrun : convert_to_indices corpus dictionary (Str <$> cm) unk_word_index
          = Return (map (fun claim =>
                     map (index_or_unk dictionary unk_word_index)
                         (flat_map words_of (split claim))) corpus)).
  { rewrite convert_to_indices_text. f_equal. apply map_ext. intros claim.
    unfold claim_sequence. f_equal. apply flat_map_ext_eq.
    intros token. apply looked_up_words_resulting. }
  split; [|split; [exact Hrun|]].
  - eexists. split; [exact Hrun|].
    apply Forall2_map_same. intros claim _. apply contributes_in_order_map.
  - intros w Hw. now apply index_or_unk_elem.
Qed.

Lemma lower_char_punctuation (c : ascii) :
  pattern_match c = true → lower_char c = c.
Proof.
  destruct c as [[] [] [] [] [] [] [] []]; vm_compute; congruence.
Qed.

Lemma lower_only_punctuation (token : string) :
  only_punctuation token → lower token = token.
Proof.
  unfold only_punctuation.
  induction token as [|c rest IH]; simpl; intros H; [reflexivity|].
  inversion H as [|? ? Hc Hrest]; subst.
  now rewrite lower_char_punctuation, IH.
Qed.

Lemma looked_up_words_punctuation (cm : gmap string string) (token : string) :
  cm !! lower token = None → only_punctuation token →
  looked_up_words (Str <$> cm) token = [].
Proof.
  intros Hkey Hp. rewrite looked_up_words_text, Hkey.
  rewrite (lower_only_punctuation _ Hp).
  unfold remove_special_characters. now rewrite pattern_sub_empty_all.
Qed.

(** C5.  A token that is not a key of the contraction map and consists
    of punctuation characters only adds nothing to its sequence: the
    output is the one of the corpus without that token.  So a claim of
    such tokens only yields the empty sequence, and a sequence can be
    shorter than the token list of its claim. *)
Theorem C5_punctuation_token_dropped (dictionary : list string)
    (cm : gmap string string) (earlier later : list string)
    (claim claim' : string) (before after : list string) (token : string)
    (marks : string) :
  split claim = before ++ token :: after →
  split claim' = before ++ after →
  cm !! lower token = None →
  only_punctuation token →
  (∀ t, t ∈ split marks → cm !! lower t = None ∧ only_punctuation t) →
  convert_to_indices (earlier ++ claim :: later) dictionary
                     (Str <$> cm) unk_word_index
  = convert_to_indices (earlier ++ claim' :: later) dictionary
                       (Str <$> cm) unk_word_index
  ∧ convert_to_indices [marks] dictionary (Str <$> cm) unk_word_index
    = Return [[]]
  ∧ convert_to_indices ["hello - world !!"] dictionary ∅ unk_word_index
    = Return [[index_or_unk dictionary unk_word_index "hello";
               index_or_unk dictionary unk_word_index "world"]]
  ∧ split "hello - world !!" = ["hello"; "-"; "world"; "!!"].
Proof.
  intros Hs Hs' Hkey Hp Hmarks.
  split; [|split; [|split]].
  - rewrite !convert_to_indices_text, !map_app. simpl.
    do 3 f_equal. unfold claim_sequence. f_equal.
    rewrite Hs, Hs', !flat_map_app. simpl.
    now rewrite (looked_up_words_punctuation cm token Hkey Hp).
  - rewrite convert_to_indices_text. simpl.
    do 2 f_equal. unfold claim_sequence.
    replace (flat_map (looked_up_words (Str <$> cm)) (split marks)) with (@nil string);
      [reflexivity|].
    symmetry. induction (split marks) as [|t rest IH]; [reflexivity|]. simpl.
    destruct (Hmarks t) as [Hk Hpt]; [now left|].
    rewrite (looked_up_words_punctuation cm t Hk Hpt). simpl.
    apply IH. intros t' Ht'. apply Hmarks. now right.
  - change (∅ : gmap string pyvalue) with (Str <$> (∅ : gmap string string)).
    rewrite convert_to_indices_text. reflexivity.
  - reflexivity.
Qed.

Lemma C5_punctuation_token_dropped_witness :
  convert_to_indices (["The flood"] ++ "I crash - here" :: ["can't stop"])
                     sample_dictionary (Str <$> sample_contractions) unk_word_index
  = convert_to_indices (["The flood"] ++ "I crash here" :: ["can't stop"])
                       sample_dictionary (Str <$> sample_contractions) unk_word_index
  ∧ convert_to_indices ["... -- !?"] sample_dictionary
                       (Str <$> sample_contractions) unk_word_index
    = Return [[]]
  ∧ convert_to_indices ["hello - world !!"] sample_dictionary ∅ unk_word_index
    = Return [[index_or_unk sample_dictionary unk_word_index "hello";
               index_or_unk sample_dictionary unk_word_index "world"]]
  ∧ split "hello - world !!" = ["hello"; "-"; "world"; "!!"].
Proof.
  apply (C5_punctuation_token_dropped sample_dictionary sample_contractions
           ["The flood"] ["can't stop"] "I crash - here" "I crash here"
           ["I"; "crash"] ["here"] "-" "... -- !?").
  - reflexivity.
  - reflexivity.
  - reflexivity.
  - unfold only_punctuation. simpl. repeat constructor.
  - change (split "... -- !?") with ["..."; "--"; "!?"].
    intros t Ht. rewrite !elem_of_cons in Ht.
    destruct Ht as [->|[->|[->|Ht]]];
      [split; [reflexivity | unfold only_punctuation; simpl; repeat constructor] .. |].
    apply elem_of_nil in Ht as [].
Defined.

(** C9.  A token is expanded exactly when its whole lowercased form is a
    key of the contraction map.  The words of the expansion are then
    looked up as they are written, neither lowercased nor stripped; any
    other token, a contraction followed by a comma included, is stripped
    of punctuation and looked up as one word. *)
Theorem C9_contraction_exact_key (corpus dictionary : list string)
    (cm : gmap string string) :
  (∃ sequences,
     convert_to_indices corpus dictionary (Str <$> cm) unk_word_index
     = Return sequences
     ∧ Forall2 (fun claim sequence =>
         ∃ parts, sequence = concat parts
           ∧ Forall2 (fun token part =>
               match cm !! lower token with
               | Some expansion =>
                   part = map (index_or_unk dictionary unk_word_index)
                              (split expansion)
               | None =>
                   part = map (index_or_unk dictionary unk_word_index)
                              (filter (fun w => nonempty w = true)
                                 [remove_special_characters (lower token)])
               end) (split claim) parts)
         corpus sequences)
  ∧ convert_to_indices ["Can't"; "can't,"; "I'm"] sample_dictionary
                       (Str <$> sample_contractions) unk_word_index
    = Return [[1]; [2]; [unk_word_index; 4]].
Proof.
  split; [|reflexivity].
  eexists. split; [apply convert_to_indices_text|].
  apply Forall2_map_same. intros claim _.
  exists (map (fun token => map (index_or_unk dictionary unk_word_index)
                           (looked_up_words (Str <$> cm) token)) (split claim)).
  split.
  - unfold claim_sequence.
    induction (split claim) as [|t rest IH]; [reflexivity|]. simpl.
    now rewrite map_app, IH.
  - apply Forall2_map_same. intros token _.
    rewrite looked_up_words_text. destruct (cm !! lower token); reflexivity.
Qed.

(** C10.  [remove_special_characters] is idempotent; its output holds no
    ASCII punctuation character and is no longer than its input; and the
    output is the input without its punctuation characters, the others
    unchanged and in their order. *)
Theorem C10_remove_special_characters (token : string) :
  remove_special_characters (remove_special_characters token)
  = remove_special_characters token
  ∧ List.Forall (fun c => is_ascii_punctuation c = false)
      (list_ascii_of_string (remove_special_characters token))
  ∧ (String.length (remove_special_characters token) <= String.length token)%nat
  ∧ list_ascii_of_string (remove_special_characters token)
    = List.filter (fun c => negb (is_ascii_punctuation c))
        (list_ascii_of_string token).
Proof.
  unfold remove_special_characters. split; [|split; [|split]].
  - apply pattern_sub_empty_fixed, pattern_sub_empty_clean.
  - eapply List.Forall_impl; [|apply pattern_sub_empty_clean].
    intros c Hc. now rewrite <- pattern_match_codes.
  - apply pattern_sub_empty_length.
  - rewrite pattern_sub_empty_filter. apply List.filter_ext.
    intros c. now rewrite pattern_match_codes.
Qed.

(* ===================================================================== *)
(** * Padding and bounds *)
(* ===================================================================== *)

Lemma mapM_return {A B : Type} (f : A → outcome B) (g : A → B) (l : list A) :
  (∀ x, x ∈ l → f x = Return (g x)) → mapM f l = Return (map g l).
Proof.
  induction l as [|x l IH]; intros H; [reflexivity|].
  simpl. rewrite H by (now left). simpl.
  rewrite IH by (intros y Hy; apply H; now right). reflexivity.
Qed.

Lemma pad_row_pre_post (maxlen : Z) (s : list Z) :
  pad_row maxlen "pre" "post" 0 s
  = Return (repeat 0 (Z.to_nat maxlen - length s)%nat ++ take (Z.to_nat maxlen) s).
Proof.
  unfold pad_row. destruct s as [|x s].
  - rewrite take_nil, app_nil_r. f_equal. f_equal. simpl. lia.
  - simpl String.eqb. cbv iota. simpl mbind.
    change (outcome_bind _ _ ?f (Return ?a)) with (f a). cbv beta.
    rewrite length_take. do 3 f_equal. lia.
Qed.

(** C3.  Padding with maximum length 125, mode ['pre'] for padding and
    ['post'] for truncating returns one row per sequence; every row has
    125 entries; a sequence of at most 125 indices is preceded by zeros,
    and a sequence of at least 125 indices keeps its first 125. *)
Theorem C3_pad_sequences_fixed_width (sequences : list (list Z)) :
  ∃ X,
    pad_sequences sequences maxSeqLength "pre" "post" = Return X
    ∧ length X = length sequences
    ∧ Forall2 (fun s row =>
                 length row = 125%nat
                 ∧ ((length s <= 125)%nat →
                    row = repeat 0 (125 - length s)%nat ++ s)
                 ∧ ((125 <= length s)%nat → row = take 125 s))
              sequences X.
Proof.
  eexists. split; [|split].
  - unfold pad_sequences. apply mapM_return. intros s _. apply pad_row_pre_post.
  - now rewrite length_map.
  - apply Forall2_map_same. intros s _.
    change (Z.to_nat maxSeqLength) with 125%nat.
    split; [|split].
    + rewrite length_app, repeat_length, length_take. lia.
    + intros H. now rewrite take_ge.
    + intros H. replace (125 - length s)%nat with 0%nat by lia. reflexivity.
Qed.

Lemma claim_sequence_range (dictionary : list string) (c_map : gmap string pyvalue)
    (unk : Z) (claim : string) (i : Z) :
  i ∈ claim_sequence dictionary c_map unk claim →
  0 <= i < Z.of_nat (length dictionary) ∨ i = unk.
Proof.
  unfold claim_sequence. intros Hin.
  apply list_elem_of_In, in_map_iff in Hin as (w & <- & _).
  apply index_or_unk_range.
Qed.

(** C6.  When the dictionary and the word-vector table both have
    400,000 entries, the placeholder 399999 is the index of the last row
    of the table, and every index that [convert_to_indices] emits is a
    row of the embedding layer built on the table. *)
Theorem C6_indices_in_bounds {V : Type} (corpus dictionary : list string)
    (c_map : gmap string pyvalue) (word_vectors : list (list V))
    (sequences : list (list Z)) :
  Zlength dictionary = 400000 →
  shape0 word_vectors = 400000 →
  convert_to_indices corpus dictionary c_map unk_word_index = Return sequences →
  unk_word_index = input_dim (embedding_layer word_vectors) - 1
  ∧ valid_row (embedding_layer word_vectors) unk_word_index
  ∧ ∀ sequence i, sequence ∈ sequences → i ∈ sequence →
                  valid_row (embedding_layer word_vectors) i.
Proof.
  intros Hd Hv Hrun. unfold valid_row. simpl. rewrite Hv.
  unfold unk_word_index in *. split; [lia|]. split; [lia|].
  intros sequence i Hs Hi.
  destruct (reaches_nan_dec c_map corpus) as [Hn|Hn].
  - rewrite convert_to_indices_nan in Hrun by exact Hn. discriminate.
  - rewrite convert_to_indices_map in Hrun by exact Hn. injection Hrun as <-.
    apply list_elem_of_In, in_map_iff in Hs as (claim & <- & _).
    apply claim_sequence_range in Hi. rewrite Zlength_correct in Hd. lia.
Qed.

Lemma C6_indices_in_bounds_witness :
  unk_word_index = input_dim (embedding_layer big_word_vectors) - 1
  ∧ valid_row (embedding_layer big_word_vectors) unk_word_index
  ∧ ∀ sequence i, sequence ∈ [[399999; unk_word_index]] → i ∈ sequence →
                  valid_row (embedding_layer big_word_vectors) i.
Proof.
  apply (C6_indices_in_bounds ["crash pole"] big_dictionary ∅ big_word_vectors).
  - vm_compute. reflexivity.
  - vm_compute. reflexivity.
  - vm_compute. reflexivity.
Defined.

(* ===================================================================== *)
(** * Labels *)
(* ===================================================================== *)

Lemma mapM_Forall2 {A B : Type} (f : A → outcome B) (l : list A) (k : list B) :
  mapM f l = Return k → Forall2 (fun x y => f x = Return y) l k.
Proof.
  revert k; induction l as [|x l IH]; intros k H; simpl in H.
  - injection H as <-. constructor.
  - destruct (f x) as [y|e] eqn:Ex; simpl in H; [|discriminate].
    destruct (mapM f l) as [k'|e]; simpl in H; [|discriminate].
    injection H as <-. constructor; auto.
Qed.

Lemma to_categorical_binary (labels : list Z) :
  Forall binary labels →
  to_categorical labels 2
  = Return (map (fun label => if label =? 0 then [1; 0] else [0; 1]) labels).
Proof.
  intros H. unfold to_categorical. apply mapM_return.
  intros label Hl. rewrite Forall_forall in H.
  destruct (H label Hl) as [->| ->]; reflexivity.
Qed.

(** C7, as stated, fails on a labels file that holds another integer or
    another number of lines than the claims file: nothing checks either. *)
Lemma C7_labels_counterexample :
  ¬ labels_parallel_binary ["a claim" +:+ newline] ["7" +:+ newline; "0" +:+ newline].
Proof.
  intros H. destruct (H [7; 0] eq_refl) as [Hbinary Hlen].
  inversion Hbinary as [|? ? [H7|H7] _]; discriminate.
Qed.

(** C7, amended.  Each line of the labels file is parsed as an integer,
    in file order, so the labels list has one entry per line.  When the
    file holds one line per claim and every label is 0 or 1, the labels
    are parallel to the claims, and [to_categorical] over 2 classes
    returns one row per label: [1, 0] for label 0 and [0, 1] for
    label 1. *)
Theorem C7_labels_parallel (claims_corpus label_lines : list string)
    (labels : list Z) :
  parse_labels label_lines = Return labels →
  length label_lines = length claims_corpus →
  Forall binary labels →
  length labels = length claims_corpus
  ∧ Forall2 (fun line label => py_int (re_sub_newline line) = Return label)
            label_lines labels
  ∧ ∃ matrix,
      to_categorical labels 2 = Return matrix
      ∧ length matrix = length labels
      ∧ Forall2 (fun label row =>
                   (label = 0 → row = [1; 0]) ∧ (label = 1 → row = [0; 1]))
                labels matrix.
Proof.
  intros Hparse Hlen Hbin.
  apply mapM_Forall2 in Hparse as Hall.
  split; [|split; [exact Hall|]].
  - apply Forall2_length in Hall. lia.
  - eexists. split; [now apply to_categorical_binary|].
    split; [now rewrite length_map|].
    apply Forall2_map_same. intros label _. split; intros ->; reflexivity.
Qed.

Lemma C7_labels_parallel_witness :
  length [1; 0] = length ["I can't crash" +:+ newline; "The flood !" +:+ newline]
  ∧ Forall2 (fun line label => py_int (re_sub_newline line) = Return label)
            ["1" +:+ newline; "0" +:+ newline] [1; 0]
  ∧ ∃ matrix,
      to_categorical [1; 0] 2 = Return matrix
      ∧ length matrix = length [1; 0]
      ∧ Forall2 (fun label row =>
                   (label = 0 → row = [1; 0]) ∧ (label = 1 → row = [0; 1]))
                [1; 0] matrix.
Proof.
  apply (C7_labels_parallel
           ["I can't crash" +:+ newline; "The flood !" +:+ newline]
           ["1" +:+ newline; "0" +:+ newline] [1; 0]).
  - reflexivity.
  - reflexivity.
  - unfold binary. repeat (constructor; [lia|]). constructor.
Defined.

(* ===================================================================== *)
(** * The data preparation cells, step by step *)
(* ===================================================================== *)

Lemma download_loop_run (remote files : store) :
  download_loop remote filesToDownload files
  = match remote !! claims_text_url, remote !! claims_labels_url with
    | Some claims_corpus, Some label_lines =>
        Return (tt, <[claims_labels_path := label_lines]>
                      (<[claims_text_path := claims_corpus]> files))
    | _, _ => Raise URLError
    end.
Proof.
  unfold filesToDownload, download_loop, urlretrieve.
  change (os_path_join base_data_url "claims_text.txt") with claims_text_url.
  change (os_path_join base_data_url "claims_labels.txt") with claims_labels_url.
  change (os_path_join data_location "claims_text.txt") with claims_text_path.
  change (os_path_join data_location "claims_labels.txt") with claims_labels_path.
  unfold mbind, script_bind.
  destruct (remote !! claims_text_url); [|reflexivity].
  destruct (remote !! claims_labels_url); reflexivity.
Qed.

Lemma paths_differ : claims_labels_path ≠ claims_text_path.
Proof. vm_compute. discriminate. Qed.

(** The outcome of the cells is the outcome of their first failing
    step, and their result when no step fails. *)
Lemma prepare_training_data_run (remote files : store) (dictionary : list string)
    (contractions : gmap string pyvalue) :
  prepare_training_data remote dictionary contractions files
  = match remote !! claims_text_url, remote !! claims_labels_url with
    | Some claims_corpus, Some label_lines =>
        labels ← parse_labels label_lines;
        labels ← to_categorical labels 2;
        claims_corpus_indices ←
          convert_to_indices claims_corpus dictionary contractions unk_word_index;
        X ← pad_sequences claims_corpus_indices maxSeqLength "pre" "post";
        Return (claims_corpus, labels, X,
                <[claims_labels_path := label_lines]>
                  (<[claims_text_path := claims_corpus]> files))
    | _, _ => Raise URLError
    end.
Proof.
  unfold prepare_training_data.
  change (os_path_join data_location "claims_text.txt") with claims_text_path.
  change (os_path_join data_location "claims_labels.txt") with claims_labels_path.
  unfold mbind at 1. unfold script_bind at 1. rewrite download_loop_run.
  destruct (remote !! claims_text_url) as [claims_corpus|]; [|reflexivity].
  destruct (remote !! claims_labels_url) as [label_lines|]; [|reflexivity].
  unfold mbind at 1. unfold script_bind at 1. unfold open_lines at 1.
  rewrite lookup_insert_ne by exact paths_differ. rewrite lookup_insert_eq.
  unfold mbind at 1. unfold script_bind at 1. unfold open_lines at 1.
  rewrite lookup_insert_eq.
  unfold mbind, script_bind, outcome_bind, pure, mret, script_ret.
  destruct (parse_labels label_lines) as [labels|e]; [|reflexivity].
  destruct (to_categorical labels 2) as [matrix|e]; [|reflexivity].
  destruct (convert_to_indices _ _ _ _) as [indices|e]; [|reflexivity].
  destruct (pad_sequences _ _ _ _) as [X|e]; reflexivity.
Qed.

(** On the sample files every step succeeds: two claims, two one-hot
    label rows and two padded rows come back. *)
Example prepare_training_data_sample :
  ∃ X files,
    prepare_training_data sample_remote sample_dictionary
                          (Str <$> sample_contractions) ∅
    = Return (["I can't crash" +:+ newline; "The flood !" +:+ newline],
              [[0; 1]; [1; 0]], X, files)
    ∧ map (drop 122) X = [[0; 1; 3]; [0; unk_word_index; unk_word_index]].
Proof.
  rewrite prepare_training_data_run. vm_compute.
  eexists. eexists. split; reflexivity.
Qed.

(* ===================================================================== *)
(** * Characters, case and punctuation *)
(* ===================================================================== *)

Lemma isspace_not_punctuation (c : ascii) :
  isspace c = true → pattern_match c = false.
Proof.
  destruct c as [[] [] [] [] [] [] [] []]; vm_compute; congruence.
Qed.

Lemma isspace_lower_char (c : ascii) : isspace (lower_char c) = isspace c.
Proof. destruct c as [[] [] [] [] [] [] [] []]; reflexivity. Qed.

Lemma pattern_match_lower_char (c : ascii) :
  pattern_match (lower_char c) = pattern_match c.
Proof. destruct c as [[] [] [] [] [] [] [] []]; reflexivity. Qed.

Lemma lower_char_idempotent (c : ascii) : lower_char (lower_char c) = lower_char c.
Proof. destruct c as [[] [] [] [] [] [] [] []]; reflexivity. Qed.

Lemma lower_idempotent (s : string) : lower (lower s) = lower s.
Proof.
  induction s as [|c rest IH]; simpl; [reflexivity|].
  now rewrite lower_char_idempotent, IH.
Qed.

Lemma lower_append (a b : string) : lower (a +:+ b) = lower a +:+ lower b.
Proof. induction a as [|c a IH]; simpl; [reflexivity|]. now rewrite IH. Qed.

Lemma nonempty_lower (s : string) : nonempty (lower s) = nonempty s.
Proof. destruct s; reflexivity. Qed.

Lemma pattern_sub_empty_append (a b : string) :
  pattern_sub_empty (a +:+ b) = pattern_sub_empty a +:+ pattern_sub_empty b.
Proof.
  induction a as [|c a IH]; simpl; [reflexivity|].
  destruct (pattern_match c); simpl; now rewrite IH.
Qed.

Lemma pattern_sub_empty_lower (s : string) :
  pattern_sub_empty (lower s) = lower (pattern_sub_empty s).
Proof.
  induction s as [|c rest IH]; simpl; [reflexivity|].
  rewrite pattern_match_lower_char.
  destruct (pattern_match c); simpl; now rewrite IH.
Qed.

Lemma split_from_lower (s word : string) :
  split_from (lower word) (lower s) = map lower (split_from word s).
Proof.
  revert word; induction s as [|c rest IH]; intros word; simpl.
  - destruct word; reflexivity.
  - rewrite isspace_lower_char. destruct (isspace c).
    + destruct word; simpl; [apply (IH EmptyString)|].
      f_equal. apply (IH EmptyString).
    + rewrite <- IH, lower_append. reflexivity.
Qed.

Lemma split_lower (s : string) : split (lower s) = map lower (split s).
Proof. apply (split_from_lower s EmptyString). Qed.

Lemma append_empty_r (s : string) : s +:+ EmptyString = s.
Proof.
  induction s as [|c s IH]; [reflexivity|].
  change (String c (s +:+ EmptyString) = String c s). now rewrite IH.
Qed.

Lemma split_from_pattern_sub_empty (s word : string) :
  split_from (pattern_sub_empty word) (pattern_sub_empty s)
  = filter (fun w => nonempty w = true) (map pattern_sub_empty (split_from word s)).
Proof.
  revert word; induction s as [|c rest IH]; intros word; simpl.
  - destruct word as [|d word]; [reflexivity|].
    cbn [map]. rewrite filter_cons, filter_nil.
    destruct (pattern_sub_empty (String d word)); reflexivity.
  - destruct (isspace c) eqn:Hc.
    + rewrite (isspace_not_punctuation c Hc). simpl. rewrite Hc.
      destruct word as [|d word].
      * simpl. apply (IH EmptyString).
      * cbn [map]. rewrite filter_cons.
        rewrite <- (IH EmptyString).
        destruct (pattern_sub_empty (String d word)); reflexivity.
    + rewrite <- IH, pattern_sub_empty_append. simpl.
      destruct (pattern_match c); simpl.
      * now rewrite append_empty_r.
      * rewrite Hc. reflexivity.
Qed.

Lemma split_strip (claim : string) :
  split (remove_special_characters claim)
  = filter (fun w => nonempty w = true)
           (map remove_special_characters (split claim)).
Proof. apply (split_from_pattern_sub_empty claim EmptyString). Qed.

(** X1.  Stripping the punctuation of a whole claim and splitting it
    gives the stripped tokens of the claim, in order, without those that
    were punctuation only: stripping never joins or cuts tokens. *)
Theorem X1_split_after_strip (claim : string) :
  split (remove_special_characters claim)
  = filter (fun w => nonempty w = true)
           (map remove_special_characters (split claim)).
Proof. apply split_strip. Qed.

(** X2.  [remove_special_characters] distributes over concatenation and
    commutes with lowercasing, and lowercasing commutes with splitting. *)
Theorem X2_strip_lower_split (a b : string) :
  remove_special_characters (a +:+ b)
  = remove_special_characters a +:+ remove_special_characters b
  ∧ remove_special_characters (lower a) = lower (remove_special_characters a)
  ∧ split (lower a) = map lower (split a).
Proof.
  unfold remove_special_characters.
  split; [apply pattern_sub_empty_append|].
  split; [apply pattern_sub_empty_lower | apply split_lower].
Qed.

(* ===================================================================== *)
(** * More about [convert_to_indices] *)
(* ===================================================================== *)

Lemma filter_nonempty_map_lower (l : list string) :
  filter (fun w => nonempty w = true) (map lower l)
  = map lower (filter (fun w => nonempty w = true) l).
Proof.
  induction l as [|x l IH]; [reflexivity|]. cbn [map].
  rewrite !filter_cons, nonempty_lower.
  destruct (decide (nonempty x = true)); cbn [map]; now rewrite IH.
Qed.

Lemma looked_up_words_plain (c_map : gmap string pyvalue) (tokens : list string) :
  (∀ t, t ∈ tokens → c_map !! lower t = None) →
  flat_map (looked_up_words c_map) tokens
  = map lower (filter (fun w => nonempty w = true)
                      (map remove_special_characters tokens)).
Proof.
  induction tokens as [|t rest IH]; intros H; [reflexivity|].
  cbn [flat_map map]. rewrite IH by (intros; apply H; now right).
  unfold looked_up_words at 1. rewrite (H t) by now left.
  rewrite len_pos_nonempty.
  unfold remove_special_characters at 1 2. rewrite pattern_sub_empty_lower.
  fold (remove_special_characters t).
  rewrite filter_cons, nonempty_lower.
  destruct (decide (nonempty (remove_special_characters t) = true)) as [Hn|Hn].
  - rewrite Hn. reflexivity.
  - apply not_true_is_false in Hn. rewrite Hn. reflexivity.
Qed.

(** X3.  For text over the code points 0..255: when no token of the
    corpus is a key of the contraction map, whatever the values of the
    map are, the sequence of a claim lines up with the words that the
    review cell prints for it: it holds the index of each printed word,
    lowercased, one index per word and in the same order. *)
Theorem X3_review_words_align (corpus dictionary : list string)
    (c_map : gmap string pyvalue) :
  (∀ claim token, claim ∈ corpus → token ∈ split claim →
                  c_map !! lower token = None) →
  convert_to_indices corpus dictionary c_map unk_word_index
  = Return (map (fun claim =>
                   map (fun w => index_or_unk dictionary unk_word_index (lower w))
                       (review_words claim))
                corpus).
Proof.
  intros H. rewrite convert_to_indices_map.
  2:{ intros (claim & token & Hc & Ht & Hn). rewrite (H claim token Hc Ht) in Hn.
      discriminate. }
  f_equal.
  induction corpus as [|claim rest IH]; [reflexivity|]. cbn [map].
  rewrite IH by (intros c t Hc; apply H; now right). f_equal.
  unfold claim_sequence, review_words.
  rewrite looked_up_words_plain by (intros t Ht; apply (H claim); [now left|exact Ht]).
  rewrite split_strip. now rewrite map_map.
Qed.

Lemma X3_review_words_align_witness :
  convert_to_indices ["I crash - here!"; "Well, am I?"] sample_dictionary
                     sample_broken_contractions unk_word_index
  = Return (map (fun claim =>
                   map (fun w => index_or_unk sample_dictionary unk_word_index
                                              (lower w))
                       (review_words claim))
                ["I crash - here!"; "Well, am I?"]).
Proof.
  apply X3_review_words_align.
  intros claim token Hc Ht. rewrite !elem_of_cons in Hc.
  destruct Hc as [->|[->|Hc]]; [| |apply elem_of_nil in Hc as []].
  - change (split "I crash - here!") with ["I"; "crash"; "-"; "here!"] in Ht.
    rewrite !elem_of_cons in Ht.
    destruct Ht as [->|[->|[->|[->|Ht]]]];
      [reflexivity .. | apply elem_of_nil in Ht as []].
  - change (split "Well, am I?") with ["Well,"; "am"; "I?"] in Ht.
    rewrite !elem_of_cons in Ht.
    destruct Ht as [->|[->|[->|Ht]]];
      [reflexivity .. | apply elem_of_nil in Ht as []].
Defined.

Section CaseAndComposition.

Variable dictionary : list string.
Variable c_map : gmap string pyvalue.
Variable unk : Z.

Lemma word_body_lower (token : string) (sequence : list Z) :
  word_body dictionary c_map unk (lower token) sequence
  = word_body dictionary c_map unk token sequence.
Proof. unfold word_body. now rewrite lower_idempotent. Qed.

Lemma token_loop_lower (tokens : list string) (sequence : list Z) :
  token_loop dictionary c_map unk (map lower tokens) sequence
  = token_loop dictionary c_map unk tokens sequence.
Proof.
  revert sequence; induction tokens as [|t rest IH]; intros sequence;
    [reflexivity|].
  cbn [map token_loop]. rewrite word_body_lower.
  destruct (word_body dictionary c_map unk t sequence); simpl; [apply IH|reflexivity].
Qed.

Lemma corpus_loop_lower (corpus : list string) (sequences : list (list Z)) :
  corpus_loop dictionary c_map unk (map lower corpus) sequences
  = corpus_loop dictionary c_map unk corpus sequences.
Proof.
  revert sequences; induction corpus as [|claim rest IH]; intros sequences;
    [reflexivity|].
  cbn [map corpus_loop]. rewrite split_lower, token_loop_lower.
  destruct (token_loop dictionary c_map unk (split claim) []); simpl;
    [apply IH|reflexivity].
Qed.

Lemma corpus_loop_accumulates (corpus : list string) (sequences : list (list Z)) :
  corpus_loop dictionary c_map unk corpus sequences
  = (more ← corpus_loop dictionary c_map unk corpus []; Return (sequences ++ more)).
Proof.
  destruct (reaches_nan_dec c_map corpus) as [Hn|Hn].
  - now rewrite !corpus_loop_nan.
  - rewrite !corpus_loop_map by exact Hn. reflexivity.
Qed.

Lemma corpus_loop_app (first second : list string) (sequences : list (list Z)) :
  corpus_loop dictionary c_map unk (first ++ second) sequences
  = (sequences ← corpus_loop dictionary c_map unk first sequences;
     corpus_loop dictionary c_map unk second sequences).
Proof.
  revert sequences; induction first as [|claim rest IH]; intros sequences;
    [reflexivity|].
  cbn [app corpus_loop].
  destruct (token_loop dictionary c_map unk (split claim) []); simpl;
    [apply IH|reflexivity].
Qed.

End CaseAndComposition.

(** X4.  The case of the claim text does not matter: lowercasing every
    claim of the corpus beforehand changes nothing in the outcome. *)
Theorem X4_case_insensitive (corpus dictionary : list string)
    (c_map : gmap string pyvalue) (unk : Z) :
  convert_to_indices (map lower corpus) dictionary c_map unk
  = convert_to_indices corpus dictionary c_map unk.
Proof. apply corpus_loop_lower. Qed.

(** X5.  Claims are converted independently and in order: the outcome
    on two corpora put end to end is the outcome on the first followed by
    the outcome on the second, and a failure in the first is the failure
    of the whole. *)
Theorem X5_corpus_concatenation (first second dictionary : list string)
    (c_map : gmap string pyvalue) (unk : Z) :
  convert_to_indices (first ++ second) dictionary c_map unk
  = (head ← convert_to_indices first dictionary c_map unk;
     tail ← convert_to_indices second dictionary c_map unk;
     Return (head ++ tail)).
Proof.
  unfold convert_to_indices. rewrite corpus_loop_app.
  destruct (corpus_loop dictionary c_map unk first []) as [head|e]; simpl;
    [|reflexivity].
  apply corpus_loop_accumulates.
Qed.

Lemma lookup_map_some {A B : Type} (f : A → B) (l : list A) (i : nat) (x : A) :
  l !! i = Some x → map f l !! i = Some (f x).
Proof.
  revert i; induction l as [|y l IH]; intros [|i] H; try discriminate.
  - injection H as ->. reflexivity.
  - apply (IH i H).
Qed.

(** X6.  When [convert_to_indices] returns, it returns one sequence per
    claim, and the sequence at position [i] is the one that the claim at
    position [i] gives on its own. *)
Theorem X6_one_sequence_per_claim (corpus dictionary : list string)
    (c_map : gmap string pyvalue) (unk : Z) (sequences : list (list Z)) :
  convert_to_indices corpus dictionary c_map unk = Return sequences →
  length sequences = length corpus
  ∧ ∀ (i : nat) (claim : string),
      corpus !! i = Some claim →
      ∃ sequence,
        sequences !! i = Some sequence
        ∧ convert_to_indices [claim] dictionary c_map unk = Return [sequence].
Proof.
  intros Hrun.
  destruct (reaches_nan_dec c_map corpus) as [Hn|Hn].
  { rewrite convert_to_indices_nan in Hrun by exact Hn. discriminate. }
  rewrite convert_to_indices_map in Hrun by exact Hn. injection Hrun as <-.
  split; [now rewrite length_map|].
  intros i claim Hi. exists (claim_sequence dictionary c_map unk claim).
  split; [now apply lookup_map_some|].
  apply convert_to_indices_map.
  intros (cl & tok & Hcl & Htok & Hnan). apply Hn.
  apply list_elem_of_singleton in Hcl. subst cl.
  exists claim, tok. split; [|auto]. eapply list_elem_of_lookup_2, Hi.
Qed.

Lemma X6_one_sequence_per_claim_witness :
  length [[0; 1; 3]; [4]] = length ["I can't crash"; "am"]
  ∧ ∀ (i : nat) (claim : string),
      ["I can't crash"; "am"] !! i = Some claim →
      ∃ sequence,
        [[0; 1; 3]; [4]] !! i = Some sequence
        ∧ convert_to_indices [claim] sample_dictionary
                             (Str <$> sample_contractions) unk_word_index
          = Return [sequence].
Proof.
  apply (X6_one_sequence_per_claim ["I can't crash"; "am"] sample_dictionary
           (Str <$> sample_contractions) unk_word_index).
  reflexivity.
Defined.

Lemma split_from_blank (s : string) : blank s → split_from EmptyString s = [].
Proof.
  unfold blank. induction s as [|c rest IH]; simpl; intros H; [reflexivity|].
  inversion H as [|? ? Hc Hrest]; subst. rewrite Hc. apply IH, Hrest.
Qed.

(** X7.  A claim of whitespace only, such as an empty line of the claims
    file, gives the empty sequence whatever the dictionary and the
    contraction map hold, and padding turns it into a row of 125 zeros. *)
Theorem X7_blank_claim (claim : string) (dictionary : list string)
    (c_map : gmap string pyvalue) :
  blank claim →
  convert_to_indices [claim] dictionary c_map unk_word_index = Return [[]]
  ∧ test_data [claim] dictionary c_map = Return [repeat 0 125%nat].
Proof.
  intros H. unfold test_data, convert_to_indices. simpl.
  unfold split. rewrite (split_from_blank claim H). split; reflexivity.
Qed.

Lemma X7_blank_claim_witness :
  convert_to_indices [newline] sample_dictionary sample_broken_contractions
                     unk_word_index = Return [[]]
  ∧ test_data [newline] sample_dictionary sample_broken_contractions
    = Return [repeat 0 125%nat].
Proof.
  apply X7_blank_claim. unfold blank. simpl. repeat constructor.
Defined.

(* ===================================================================== *)
(** * Indices and the dictionary *)
(* ===================================================================== *)

(** X8.  Looking up the word stored at a position of the dictionary
    gives the first position that holds this word: never a later one, and
    the position itself when the dictionary has no repeated word. *)
Theorem X8_index_of_entry (dictionary : list string) (i : nat) (w : string) :
  dictionary !! i = Some w →
  ∃ k, index dictionary w = Return k
       ∧ 0 <= k <= Z.of_nat i
       ∧ dictionary !! Z.to_nat k = Some w
       ∧ (NoDup dictionary → k = Z.of_nat i).
Proof.
  intros Hi.
  destruct (index_from_elem dictionary 0 w) as [k Hk];
    [eapply list_elem_of_lookup_2, Hi|].
  exists k. split; [exact Hk|].
  apply index_from_return in Hk as (Hr & Hl & Hf).
  rewrite Z.sub_0_r in Hl, Hf.
  assert (Hle : (Z.to_nat k <= i)%nat).
  { destruct (Nat.le_gt_cases (Z.to_nat k) i) as [H|H]; [exact H|].
    exfalso. apply (Hf i H), Hi. }
  split; [lia|]. split; [exact Hl|].
  intros Hnd. pose proof (NoDup_lookup _ _ _ _ Hnd Hl Hi). lia.
Qed.

Lemma X8_index_of_entry_witness :
  ∃ k, index sample_dictionary "crash" = Return k
       ∧ 0 <= k <= Z.of_nat 3
       ∧ sample_dictionary !! Z.to_nat k = Some "crash"
       ∧ (NoDup sample_dictionary → k = Z.of_nat 3).
Proof. apply X8_index_of_entry. reflexivity. Defined.

Lemma index_or_unk_decode (dictionary : list string) (unk : Z) (w : string) :
  index_or_unk dictionary unk w ≠ unk →
  dictionary !! Z.to_nat (index_or_unk dictionary unk w) = Some w.
Proof.
  unfold index_or_unk. destruct (index dictionary w) as [k|e] eqn:E; [|congruence].
  intros _. apply index_from_return in E as (_ & Hl & _).
  now rewrite Z.sub_0_r in Hl.
Qed.

Lemma index_or_unk_marks (dictionary : list string) (unk : Z) (w : string) :
  Zlength dictionary <= unk →
  index_or_unk dictionary unk w = unk ↔ w ∉ dictionary.
Proof.
  intros Hlen. split.
  - intros Heq Hin. apply index_or_unk_elem with (unk := unk) in Hin as Hfirst.
    destruct Hfirst as (H0 & Hl & _). apply lookup_lt_Some in Hl.
    rewrite Zlength_correct in Hlen. lia.
  - intros Hnot. now apply index_or_unk_absent.
Qed.

(** X9.  Every emitted index other than the placeholder decodes back to
    its word: the dictionary holds the looked-up word at that position.
    When the dictionary has at most 399999 entries, the placeholder
    stands for the unknown words and for nothing else. *)
Theorem X9_indices_decode (corpus dictionary : list string)
    (cm : gmap string string) :
  ∃ sequences,
    convert_to_indices corpus dictionary (Str <$> cm) unk_word_index
    = Return sequences
    ∧ Forall2 (fun claim sequence =>
                 Forall2 (fun w i =>
                            (i ≠ unk_word_index →
                             dictionary !! Z.to_nat i = Some w)
                            ∧ (Zlength dictionary <= unk_word_index →
                               (i = unk_word_index ↔ w ∉ dictionary)))
                   (flat_map (looked_up_words (Str <$> cm)) (split claim))
                   sequence)
              corpus sequences.
Proof.
  eexists. split; [apply convert_to_indices_text|].
  apply Forall2_map_same. intros claim _. unfold claim_sequence.
  apply Forall2_map_same. intros w _. split.
  - apply index_or_unk_decode.
  - intros Hlen. now apply index_or_unk_marks.
Qed.

(** X10.  With a dictionary of fewer than 400,000 words and a table of
    as many rows, a word that is looked up and not found puts 399999 in
    the output, and that index is not a row of the embedding layer. *)
Theorem X10_placeholder_out_of_table {V : Type} (corpus dictionary : list string)
    (cm : gmap string string) (word_vectors : list (list V))
    (claim token w : string) :
  Zlength dictionary < 400000 →
  shape0 word_vectors = Zlength dictionary →
  claim ∈ corpus → token ∈ split claim →
  w ∈ looked_up_words (Str <$> cm) token → w ∉ dictionary →
  ∃ sequences sequence,
    convert_to_indices corpus dictionary (Str <$> cm) unk_word_index
    = Return sequences
    ∧ sequence ∈ sequences
    ∧ unk_word_index ∈ sequence
    ∧ ¬ valid_row (embedding_layer word_vectors) unk_word_index.
Proof.
  intros Hlen Hrows Hclaim Htoken Hw Habsent.
  exists (map (claim_sequence dictionary (Str <$> cm) unk_word_index) corpus),
         (claim_sequence dictionary (Str <$> cm) unk_word_index claim).
  split; [apply convert_to_indices_text|].
  split; [apply list_elem_of_In, in_map, list_elem_of_In, Hclaim|].
  split.
  - unfold claim_sequence.
    apply list_elem_of_In, in_map_iff. exists w.
    split; [now apply index_or_unk_absent|].
    apply in_flat_map. exists token. split; apply list_elem_of_In; assumption.
  - unfold valid_row. simpl. rewrite Hrows. unfold unk_word_index. lia.
Qed.

Lemma X10_placeholder_out_of_table_witness :
  ∃ sequences sequence,
    convert_to_indices ["The flood"] sample_dictionary
                       (Str <$> sample_contractions) unk_word_index
    = Return sequences
    ∧ sequence ∈ sequences
    ∧ unk_word_index ∈ sequence
    ∧ ¬ valid_row (embedding_layer [[1]; [2]; [3]; [4]; [5]]) unk_word_index.
Proof.
  apply (X10_placeholder_out_of_table ["The flood"] sample_dictionary
           sample_contractions [[1]; [2]; [3]; [4]; [5]]
           "The flood" "flood" "flood").
  - reflexivity.
  - reflexivity.
  - now left.
  - change (split "The flood") with ["The"; "flood"]. right. now left.
  - change (looked_up_words (Str <$> sample_contractions) "flood") with ["flood"].
    now left.
  - unfold sample_dictionary. rewrite !elem_of_cons.
    intros [H|[H|[H|[H|[H|H]]]]]; try discriminate.
    apply elem_of_nil in H as [].
Defined.

(* ===================================================================== *)
(** * Building the contraction map *)
(* ===================================================================== *)

Lemma dict_zip_absent (keys values : list pyvalue) (d : gmap string pyvalue)
    (k : string) :
  Str k ∉ keys → dict_zip d keys values !! k = d !! k.
Proof.
  revert d values; induction keys as [|key keys IH]; intros d values Hk;
    [reflexivity|].
  destruct values as [|value values]; [reflexivity|]. simpl.
  rewrite IH by (intros H; apply Hk; now right).
  destruct key as [k'|]; [|reflexivity].
  apply lookup_insert_ne. intros ->. apply Hk. now left.
Qed.

Lemma dict_zip_last (before after values : list pyvalue)
    (d : gmap string pyvalue) (k : string) (v : pyvalue) :
  values !! length before = Some v → Str k ∉ after →
  dict_zip d (before ++ Str k :: after) values !! k = Some v.
Proof.
  revert d values; induction before as [|b before IH]; intros d values Hv Hk.
  - destruct values as [|x values]; [discriminate|]. injection Hv as ->.
    simpl. rewrite dict_zip_absent by exact Hk. apply lookup_insert_eq.
  - destruct values as [|x values]; [discriminate|]. simpl.
    now apply IH.
Qed.

(** X11.  In the map built from the two spreadsheet columns, the
    expansion of a contraction is the cell next to the last row that
    names it: a later row replaces an earlier one.  A word that the first
    column does not name is not a key. *)
Theorem X11_contractions_last_row (before after expanded : list pyvalue)
    (k : string) (v : pyvalue) :
  expanded !! length before = Some v →
  Str k ∉ after →
  contractions_of (before ++ Str k :: after) expanded !! k = Some v
  ∧ ∀ other, Str other ∉ before ++ Str k :: after →
             contractions_of (before ++ Str k :: after) expanded !! other = None.
Proof.
  intros Hv Hk. unfold contractions_of. split.
  - now apply dict_zip_last.
  - intros other Ho. now rewrite dict_zip_absent.
Qed.

Lemma X11_contractions_last_row_witness :
  contractions_of ([Str "can't"; NaN] ++ Str "can't" :: [Str "i'm"])
                  [Str "can not"; Str "x"; Str "cannot"; Str "I am"] !! "can't"
  = Some (Str "cannot")
  ∧ ∀ other, Str other ∉ [Str "can't"; NaN] ++ Str "can't" :: [Str "i'm"] →
             contractions_of ([Str "can't"; NaN] ++ Str "can't" :: [Str "i'm"])
               [Str "can not"; Str "x"; Str "cannot"; Str "I am"] !! other
             = None.
Proof.
  apply X11_contractions_last_row.
  - reflexivity.
  - rewrite elem_of_cons. intros [H|H]; [discriminate|].
    apply elem_of_nil in H as [].
Defined.

(* ===================================================================== *)
(** * Parsing the labels *)
(* ===================================================================== *)

Lemma digits_value_raise (s : string) (acc : Z) (after_digit : bool) (e : exception) :
  digits_value acc after_digit s = Raise e → e = ValueError.
Proof.
  revert acc after_digit; induction s as [|c rest IH]; intros acc after_digit; simpl.
  - destruct after_digit; congruence.
  - destruct (digit_value c); [apply IH|].
    destruct ((code c =? 95)%N && after_digit); [apply IH|congruence].
Qed.

Lemma py_int_raise (s : string) (e : exception) :
  py_int s = Raise e → e = ValueError.
Proof.
  unfold py_int. destruct (rstrip (lstrip s)) as [|c digits].
  - apply digits_value_raise.
  - destruct (Ascii.eqb c "-") eqn:Eminus.
    + apply Ascii.eqb_eq in Eminus. subst c.
      destruct (digits_value 0 false digits) as [n|e'] eqn:E; simpl; [discriminate|].
      intros H. injection H as <-. eapply digits_value_raise, E.
    + destruct (Ascii.eqb c "+") eqn:Eplus.
      * apply Ascii.eqb_eq in Eplus. subst c. apply digits_value_raise.
      * intros H.
        assert (Hd : digits_value 0 false (String c digits) = Raise e).
        { destruct c as [[] [] [] [] [] [] [] []]; try discriminate; exact H. }
        eapply digits_value_raise, Hd.
Qed.

Lemma parse_labels_raise (lines : list string) (e : exception) :
  parse_labels lines = Raise e → e = ValueError.
Proof.
  unfold parse_labels. induction lines as [|line rest IH]; simpl; [discriminate|].
  destruct (py_int (re_sub_newline line)) as [n|e'] eqn:E; simpl.
  - destruct (mapM _ rest) as [ns|e'']; simpl; [discriminate|].
    intros H. injection H as <-. now apply IH.
  - intros H. injection H as <-. eapply py_int_raise, E.
Qed.

Lemma blank_re_sub_newline (s : string) : blank s → blank (re_sub_newline s).
Proof.
  unfold blank. induction s as [|c rest IH]; simpl; intros H; [constructor|].
  inversion H as [|? ? Hc Hrest]; subst.
  destruct (code c =? 10)%N; simpl; [auto|]. constructor; auto.
Qed.

Lemma lstrip_blank (s : string) : blank s → blank (lstrip s).
Proof.
  unfold blank. induction s as [|c rest IH]; simpl; intros H; [constructor|].
  inversion H as [|? ? Hc Hrest]; subst.
  destruct (int_space c); [auto|exact H].
Qed.

Lemma rstrip_blank (s : string) : blank s → blank (rstrip s).
Proof.
  unfold blank. induction s as [|c rest IH]; simpl; intros H; [constructor|].
  inversion H as [|? ? Hc Hrest]; subst. specialize (IH Hrest).
  destruct (rstrip rest) as [|d kept].
  - destruct (int_space c); simpl; repeat constructor; exact Hc.
  - simpl. constructor; assumption.
Qed.

Lemma digits_value_space (c : ascii) (rest : string) :
  isspace c = true →
  match String c rest with
  | String "-" digits => n ← digits_value 0 false digits; Return (- n)
  | String "+" digits => digits_value 0 false digits
  | digits => digits_value 0 false digits
  end = Raise ValueError.
Proof.
  destruct c as [[] [] [] [] [] [] [] []]; intros H; try discriminate H;
    reflexivity.
Qed.

Lemma py_int_blank (s : string) : blank s → py_int s = Raise ValueError.
Proof.
  intros H. apply lstrip_blank, rstrip_blank in H.
  unfold py_int. destruct (rstrip (lstrip s)) as [|c rest]; [reflexivity|].
  inversion H as [|? ? Hc _]; subst. now apply digits_value_space.
Qed.

(** X12.  Reading the labels fails with [ValueError] and with nothing
    else, and it does fail as soon as one line of the file is blank, an
    empty last line included. *)
Theorem X12_blank_label_line (lines : list string) (line : string) :
  line ∈ lines → blank line →
  parse_labels lines = Raise ValueError
  ∧ ∀ other e, parse_labels other = Raise e → e = ValueError.
Proof.
  intros Hin Hblank. split; [|apply parse_labels_raise].
  destruct (parse_labels lines) as [labels|e] eqn:E.
  - exfalso. apply mapM_Forall2 in E.
    apply list_elem_of_lookup in Hin as [i Hi].
    destruct (Forall2_lookup_l _ _ _ _ _ E Hi) as (label & _ & Hparse).
    rewrite py_int_blank in Hparse by now apply blank_re_sub_newline.
    discriminate.
  - f_equal. eapply parse_labels_raise, E.
Qed.

Lemma X12_blank_label_line_witness :
  parse_labels ["1" +:+ newline; "0" +:+ newline; newline] = Raise ValueError
  ∧ ∀ other e, parse_labels other = Raise e → e = ValueError.
Proof.
  apply (X12_blank_label_line _ newline).
  - right. right. now left.
  - unfold blank. simpl. repeat constructor.
Defined.

(* ===================================================================== *)
(** * The input matrix and the files *)
(* ===================================================================== *)

Lemma pad_sequences_pre_post (sequences : list (list Z)) :
  pad_sequences sequences maxSeqLength "pre" "post"
  = Return (map (fun s => repeat 0 (125 - length s)%nat ++ take 125 s) sequences).
Proof.
  unfold pad_sequences. apply mapM_return. intros s _. apply pad_row_pre_post.
Qed.

Lemma padded_row_entries (s : list Z) (i : Z) :
  i ∈ repeat 0 (125 - length s)%nat ++ take 125 s → i = 0 ∨ i ∈ s.
Proof.
  rewrite elem_of_app. intros [H|H].
  - left. apply list_elem_of_In, repeat_spec in H. exact H.
  - right. apply elem_of_take in H as (j & Hj & _).
    eapply list_elem_of_lookup_2, Hj.
Qed.

(** X13.  When the two preprocessing steps return the input matrix, it
    has one row per claim, every row is as wide as the [input_length] of
    the embedding layer, and, for a dictionary and a table of 400,000
    entries, every entry is a row of the layer. *)
Theorem X13_input_matrix_fits {V : Type} (test_claim dictionary : list string)
    (contractions : gmap string pyvalue) (word_vectors : list (list V))
    (X : list (list Z)) :
  test_data test_claim dictionary contractions = Return X →
  Zlength dictionary = 400000 →
  shape0 word_vectors = 400000 →
  length X = length test_claim
  ∧ (∀ row, row ∈ X →
            Z.of_nat (length row) = input_length (embedding_layer word_vectors))
  ∧ ∀ row i, row ∈ X → i ∈ row → valid_row (embedding_layer word_vectors) i.
Proof.
  intros Hrun Hd Hv. unfold test_data in Hrun.
  destruct (convert_to_indices test_claim dictionary contractions unk_word_index)
    as [indices|e] eqn:Hconv; simpl in Hrun; [|discriminate].
  rewrite pad_sequences_pre_post in Hrun. injection Hrun as <-.
  destruct (reaches_nan_dec contractions test_claim) as [Hn|Hn].
  { rewrite convert_to_indices_nan in Hconv by exact Hn. discriminate. }
  rewrite convert_to_indices_map in Hconv by exact Hn. injection Hconv as <-.
  split; [now rewrite !length_map|]. split.
  - intros row Hrow. apply list_elem_of_In, in_map_iff in Hrow as (s & <- & _).
    change (input_length (embedding_layer word_vectors)) with 125.
    rewrite length_app, repeat_length, length_take. lia.
  - intros row i Hrow Hi.
    apply list_elem_of_In, in_map_iff in Hrow as (s & <- & Hs).
    unfold valid_row. simpl. rewrite Hv.
    apply padded_row_entries in Hi as [->|Hi]; [lia|].
    apply in_map_iff in Hs as (claim & <- & _).
    apply claim_sequence_range in Hi. rewrite Zlength_correct in Hd.
    unfold unk_word_index in Hi. lia.
Qed.

Lemma X13_input_matrix_fits_witness :
  length [repeat 0 123%nat ++ [399999; unk_word_index]] = length ["crash pole"]
  ∧ (∀ row, row ∈ [repeat 0 123%nat ++ [399999; unk_word_index]] →
            Z.of_nat (length row) = input_length (embedding_layer big_word_vectors))
  ∧ ∀ row i, row ∈ [repeat 0 123%nat ++ [399999; unk_word_index]] → i ∈ row →
             valid_row (embedding_layer big_word_vectors) i.
Proof.
  apply (X13_input_matrix_fits ["crash pole"] big_dictionary ∅ big_word_vectors).
  - vm_compute. reflexivity.
  - vm_compute. reflexivity.
  - vm_compute. reflexivity.
Defined.

Lemma to_categorical_rows (labels : list Z) (matrix : list (list Z)) :
  to_categorical labels 2 = Return matrix →
  length matrix = length labels
  ∧ ∀ row, row ∈ matrix → row = [1; 0] ∨ row = [0; 1].
Proof.
  intros H. apply mapM_Forall2 in H. split.
  - symmetry. eapply Forall2_length, H.
  - intros row Hrow. apply list_elem_of_lookup in Hrow as [i Hi].
    destruct (Forall2_lookup_r _ _ _ _ _ H Hi) as (label & _ & Hl).
    cbv beta in Hl.
    match type of Hl with
    | (if ?b then _ else _) = _ => destruct b eqn:Hb; [|discriminate]
    end.
    injection Hl as <-.
    assert (Hm : label mod 2 = 0 ∨ label mod 2 = 1)
      by (pose proof (Z.mod_pos_bound label 2); lia).
    destruct Hm as [-> | ->]; [left|right]; reflexivity.
Qed.

(** X14.  When the data cells return, the claims are the file served
    for the claims, there is one padded row of 125 entries per claim and
    one label row, [1, 0] or [0, 1], per line of the labels file; so the
    matrix and the labels have as many rows exactly when the two files
    have as many lines. *)
Theorem X14_prepared_shapes (remote files after : store)
    (dictionary : list string) (contractions : gmap string pyvalue)
    (claims_corpus : list string) (labels X : list (list Z)) :
  prepare_training_data remote dictionary contractions files
  = Return (claims_corpus, labels, X, after) →
  remote !! claims_text_url = Some claims_corpus
  ∧ length X = length claims_corpus
  ∧ (∀ row, row ∈ X → length row = 125%nat)
  ∧ (∀ row, row ∈ labels → row = [1; 0] ∨ row = [0; 1])
  ∧ ∃ label_lines,
      remote !! claims_labels_url = Some label_lines
      ∧ length labels = length label_lines
      ∧ (length labels = length X ↔ length label_lines = length claims_corpus).
Proof.
  rewrite prepare_training_data_run.
  destruct (remote !! claims_text_url) as [claims|]; [|discriminate].
  destruct (remote !! claims_labels_url) as [label_lines|]; [|discriminate].
  destruct (parse_labels label_lines) as [parsed|e] eqn:Hp; simpl; [|discriminate].
  destruct (to_categorical parsed 2) as [matrix|e] eqn:Hm; simpl; [|discriminate].
  destruct (convert_to_indices claims dictionary contractions unk_word_index)
    as [indices|e] eqn:Hc; simpl; [|discriminate].
  rewrite pad_sequences_pre_post. simpl. intros H. injection H as <- <- <- <-.
  apply to_categorical_rows in Hm as [Hlen Hrows].
  apply mapM_Forall2, Forall2_length in Hp.
  assert (Hi : length indices = length claims).
  { destruct (reaches_nan_dec contractions claims) as [Hn|Hn].
    - rewrite convert_to_indices_nan in Hc by exact Hn. discriminate.
    - rewrite convert_to_indices_map in Hc by exact Hn. injection Hc as <-.
      now rewrite length_map. }
  split; [reflexivity|]. split; [now rewrite length_map|]. split.
  - intros row Hrow. apply list_elem_of_In, in_map_iff in Hrow as (s & <- & _).
    rewrite length_app, repeat_length, length_take. lia.
  - split; [exact Hrows|]. exists label_lines.
    split; [reflexivity|]. split; [lia|]. rewrite length_map. lia.
Qed.

Lemma X14_prepared_shapes_witness :
  sample_remote !! claims_text_url
  = Some ["I can't crash" +:+ newline; "The flood !" +:+ newline]
  ∧ length [repeat 0 122%nat ++ [0; 1; 3];
            repeat 0 123%nat ++ [unk_word_index; unk_word_index]]
    = length ["I can't crash" +:+ newline; "The flood !" +:+ newline]
  ∧ (∀ row, row ∈ [repeat 0 122%nat ++ [0; 1; 3];
                   repeat 0 123%nat ++ [unk_word_index; unk_word_index]] →
            length row = 125%nat)
  ∧ (∀ row, row ∈ [[0; 1]; [1; 0]] → row = [1; 0] ∨ row = [0; 1])
  ∧ ∃ label_lines,
      sample_remote !! claims_labels_url = Some label_lines
      ∧ length [[0; 1]; [1; 0]] = length label_lines
      ∧ (length [[0; 1]; [1; 0]]
         = length [repeat 0 122%nat ++ [0; 1; 3];
                   repeat 0 123%nat ++ [unk_word_index; unk_word_index]]
         ↔ length label_lines
           = length ["I can't crash" +:+ newline; "The flood !" +:+ newline]).
Proof.
  apply (X14_prepared_shapes sample_remote ∅
           (<[claims_labels_path := ["1" +:+ newline; "0" +:+ newline]]>
              (<[claims_text_path :=
                   ["I can't crash" +:+ newline; "The flood !" +:+ newline]]> ∅))
           sample_dictionary (Str <$> sample_contractions)).
  vm_compute. reflexivity.
Defined.

(* ===================================================================== *)
(** * The vector of a word *)
(* ===================================================================== *)

(** X16.  With a table of at least as many rows as the dictionary has
    words, the vector of a dictionary word is the row at the word's first
    position and the lookup never leaves the table; a word that the
    dictionary lacks raises [ValueError], which these cells do not
    handle. *)
Theorem X16_word_vector {V : Type} (dictionary : list string)
    (word_vectors : list V) (w : string) :
  Zlength dictionary <= Zlength word_vectors →
  (w ∈ dictionary →
   ∃ i row, index dictionary w = Return i
            ∧ first_occurrence dictionary w i
            ∧ word_vectors !! Z.to_nat i = Some row
            ∧ word_vector dictionary word_vectors w = Return row)
  ∧ (w ∉ dictionary → word_vector dictionary word_vectors w = Raise ValueError)
  ∧ word_vector dictionary word_vectors w ≠ Raise IndexError.
Proof.
  intros Hlen. rewrite !Zlength_correct in Hlen.
  assert (Hin : w ∈ dictionary →
    ∃ i row, index dictionary w = Return i
             ∧ first_occurrence dictionary w i
             ∧ word_vectors !! Z.to_nat i = Some row
             ∧ word_vector dictionary word_vectors w = Return row).
  { intros Hw. destruct (index_from_elem dictionary 0 w Hw) as [i Hi].
    pose proof (index_first_occurrence dictionary w i Hi) as Hfirst.
    destruct Hfirst as (H0 & Hl & Hf). pose proof (lookup_lt_Some _ _ _ Hl) as Hlt.
    destruct (lookup_lt_is_Some_2 word_vectors (Z.to_nat i)) as [row Hrow]; [lia|].
    exists i, row. split; [exact Hi|]. split; [repeat split; assumption|].
    split; [exact Hrow|].
    unfold word_vector, index. rewrite Hi. simpl.
    unfold getitem. rewrite Zlength_correct.
    destruct (i <? 0) eqn:Hneg; [lia|].
    destruct ((0 <=? i) && (i <? Z.of_nat (length word_vectors))) eqn:Hb; [|lia].
    now rewrite Hrow. }
  split; [exact Hin|]. split.
  - intros Hw. unfold word_vector.
    now rewrite (proj1 (index_or_unk_absent dictionary 0 w Hw)).
  - destruct (decide (w ∈ dictionary)) as [Hw|Hw].
    + destruct (Hin Hw) as (i & row & _ & _ & _ & ->). discriminate.
    + unfold word_vector.
      rewrite (proj1 (index_or_unk_absent dictionary 0 w Hw)). discriminate.
Qed.

Lemma X16_word_vector_witness :
  ("crash" ∈ sample_dictionary →
   ∃ i row, index sample_dictionary "crash" = Return i
            ∧ first_occurrence sample_dictionary "crash" i
            ∧ [[1]; [2]; [3]; [4]; [5]; [6]] !! Z.to_nat i = Some row
            ∧ word_vector sample_dictionary [[1]; [2]; [3]; [4]; [5]; [6]] "crash"
              = Return row)
  ∧ ("crash" ∉ sample_dictionary →
     word_vector sample_dictionary [[1]; [2]; [3]; [4]; [5]; [6]] "crash"
     = Raise ValueError)
  ∧ word_vector sample_dictionary [[1]; [2]; [3]; [4]; [5]; [6]] "crash"
    ≠ Raise IndexError.
Proof.
  apply X16_word_vector. vm_compute. discriminate.
Defined.
